(** * Verification of the equation-solving pipeline of [backend/app.py]

    The application delegates parsing, simplification and solving to the
    SymPy library.  The development has two layers:

    - [Module Sympy]: an executable model of the part of SymPy the
      application calls, restricted to a fragment on which SymPy's
      behaviour is documented: integer literals, one-letter lower-case
      symbols, the operators [+ - * / **], parentheses and blanks.
      Whatever falls outside the fragment yields [Beyond]: the model
      says nothing about it.
    - [Module App]: the functions of [backend/app.py], transcribed
      line by line over that model. *)

From Stdlib Require Import ZArith QArith Qreduction Qabs List String Ascii Bool Lia Lqa.
From Stdlib Require Import DecimalString.
From Stdlib Require Qcanon DecimalPos DecimalFacts.
Import ListNotations.

Open Scope Z_scope.
Set Warnings "-register-all".

(** ** Outcomes of a Python call *)

(** The exception classes the application can observe. *)
Inductive exn : Type :=
| SympifyError
| ValueError
| TypeError
| SyntaxError
| OverflowError.

(** A call returns a value, raises, or leaves the modelled fragment. *)
Inductive outcome (A : Type) : Type :=
| Ok (a : A)
| Raise (e : exn)
| Beyond.

Arguments Ok {A} a.
Arguments Raise {A} e.
Arguments Beyond {A}.

Definition bind {A B : Type} (m : outcome A) (k : A -> outcome B) : outcome B :=
  match m with
  | Ok a => k a
  | Raise e => Raise e
  | Beyond => Beyond
  end.

Notation "x <- m ;; k" := (bind m (fun x => k))
  (at level 61, m at next level, right associativity).

Module Sympy.

(** ** Expressions

    The constructors follow SymPy's classes and argument lists
    ([srepr]): [Integer]/[Rational] are [Number] with a reduced
    fraction, [Add] and [Mul] carry their argument tuple, [Pow] its
    base and an integer exponent. *)
Inductive Expr : Type :=
| Number (q : Q)
| Symbol (name : ascii)
| ImaginaryUnit
| Add (args : list Expr)
| Mul (args : list Expr)
| Pow (base : Expr) (exponent : Z).

Definition Integer (n : Z) : Expr := Number (n # 1).
Definition zero : Expr := Integer 0.
Definition one : Expr := Integer 1.

Definition Qeqb (a b : Q) : bool := Qeq_bool a b.

(** A total order on expressions, used only to keep argument lists in
    one canonical order (SymPy sorts them too; which order is used is
    not observable through the functions modelled here). *)
Definition rank (e : Expr) : Z :=
  match e with
  | Number _ => 0
  | ImaginaryUnit => 1
  | Symbol _ => 2
  | Pow _ _ => 3
  | Mul _ => 4
  | Add _ => 5
  end.

Fixpoint cmp (a b : Expr) {struct a} : comparison :=
  match a, b with
  | Number p, Number q => Qcompare p q
  | Symbol c, Symbol d => Nat.compare (nat_of_ascii c) (nat_of_ascii d)
  | ImaginaryUnit, ImaginaryUnit => Eq
  | Pow b1 e1, Pow b2 e2 =>
      match cmp b1 b2 with
      | Eq => Z.compare e1 e2
      | r => r
      end
  | Mul l1, Mul l2 =>
      (fix go (l1 l2 : list Expr) {struct l1} : comparison :=
         match l1, l2 with
         | [], [] => Eq
         | [], _ :: _ => Lt
         | _ :: _, [] => Gt
         | x :: t1, y :: t2 =>
             match cmp x y with
             | Eq => go t1 t2
             | r => r
             end
         end) l1 l2
  | Add l1, Add l2 =>
      (fix go (l1 l2 : list Expr) {struct l1} : comparison :=
         match l1, l2 with
         | [], [] => Eq
         | [], _ :: _ => Lt
         | _ :: _, [] => Gt
         | x :: t1, y :: t2 =>
             match cmp x y with
             | Eq => go t1 t2
             | r => r
             end
         end) l1 l2
  | _, _ => Z.compare (rank a) (rank b)
  end.

(** [==] on expressions: structural equality of canonical trees. *)
Definition eqb (a b : Expr) : bool :=
  match cmp a b with
  | Eq => true
  | _ => false
  end.

(** ** Automatic evaluation of [Add] *)

(** [Mul._from_args]: a product rebuilt from a tuple of factors. *)
Definition Mul_from_args (l : list Expr) : Expr :=
  match l with
  | [] => one
  | [f] => f
  | _ => Mul l
  end.

(** [as_coeff_Mul]: split a term into its rational coefficient and
    the rest. *)
Definition as_coeff_Mul (t : Expr) : Q * Expr :=
  match t with
  | Number q => (q, one)
  | Mul (Number q :: rest) => (q, Mul_from_args rest)
  | _ => (1%Q, t)
  end.

Definition factors_of (e : Expr) : list Expr :=
  match e with
  | Mul l => l
  | _ => [e]
  end.

(** The term [c * r] for a coefficient-free [r]. *)
Definition term (r : Expr) (c : Q) : Expr :=
  if eqb r one then Number c
  else if Qeqb c 1 then r
  else Mul (Number c :: factors_of r).

(** Collect a term into a table sorted by the coefficient-free part. *)
Fixpoint add_term (r : Expr) (c : Q) (l : list (Expr * Q)) : list (Expr * Q) :=
  match l with
  | [] => [(r, c)]
  | (r', c') :: t =>
      match cmp r r' with
      | Eq => (r', Qred (c' + c)) :: t
      | Lt => (r, c) :: l
      | Gt => (r', c') :: add_term r c t
      end
  end.

Definition terms_of (e : Expr) : list Expr :=
  match e with
  | Add l => l
  | _ => [e]
  end.

Definition collect_terms (ts : list Expr) : list (Expr * Q) :=
  fold_left (fun acc t => let '(c, r) := as_coeff_Mul t in add_term r c acc)
            ts [].

Definition Add_from_args (l : list Expr) : Expr :=
  match l with
  | [] => zero
  | [t] => t
  | _ => Add l
  end.

Definition rebuild_terms (tbl : list (Expr * Q)) : Expr :=
  Add_from_args
    (map (fun rc => term (fst rc) (snd rc))
         (filter (fun rc => negb (Qeqb (snd rc) 0)) tbl)).

(** [a + b]: [Add.flatten] — flatten nested sums, add the numbers,
    merge like terms, drop zero terms. *)
Definition add (a b : Expr) : Expr :=
  rebuild_terms (collect_terms (terms_of a ++ terms_of b)).

(** ** Automatic evaluation of [Mul] and [Pow] *)

(** [as_base_exp]: split a factor into base and integer exponent. *)
Definition as_base_exp (f : Expr) : Expr * Z :=
  match f with
  | Pow b e => (b, e)
  | _ => (f, 1)
  end.

(** Collect a factor into a table sorted by base, adding exponents. *)
Fixpoint mul_factor (b : Expr) (e : Z) (l : list (Expr * Z)) : list (Expr * Z) :=
  match l with
  | [] => [(b, e)]
  | (b', e') :: t =>
      match cmp b b' with
      | Eq => (b', e' + e) :: t
      | Lt => (b, e) :: l
      | Gt => (b', e') :: mul_factor b e t
      end
  end.

(** Numeric coefficient and power table of a flattened factor list. *)
Definition collect_factors (fs : list Expr) : Q * list (Expr * Z) :=
  fold_left
    (fun acc f =>
       match f with
       | Number q => (Qred (fst acc * q), snd acc)
       | _ => let '(b, e) := as_base_exp f in (fst acc, mul_factor b e (snd acc))
       end)
    fs (1%Q, []).

Definition power (be : Expr * Z) : Expr :=
  if Z.eqb (snd be) 1 then fst be else Pow (fst be) (snd be).

(** [c * t] for a term [t] of a sum (used when a number is
    distributed over an [Add]). *)
Definition scale (c : Q) (t : Expr) : Expr :=
  let '(c', r) := as_coeff_Mul t in term r (Qred (c * c')).

Definition rebuild_factors (c : Q) (tbl : list (Expr * Z)) : Expr :=
  let fs := map power (filter (fun be => negb (Z.eqb (snd be) 0)) tbl) in
  if Qeqb c 0 then zero
  else match fs with
       | [] => Number c
       | [Add l] => if Qeqb c 1 then Add l else Add (map (scale c) l)
       | _ => if Qeqb c 1 then Mul_from_args fs else Mul (Number c :: fs)
       end.

Fixpoint mentions_I (e : Expr) : bool :=
  match e with
  | ImaginaryUnit => true
  | Number _ | Symbol _ => false
  | Pow b _ => mentions_I b
  | Add l | Mul l => existsb mentions_I l
  end.

(** [a * b]: [Mul.flatten] — flatten nested products, multiply the
    numbers, merge powers of one base, and distribute a remaining
    number over a single remaining sum ([2*(x + 1)] is [2*x + 2]).
    Products involving [I] are outside the fragment. *)
Definition mul (a b : Expr) : outcome Expr :=
  if mentions_I a || mentions_I b then Beyond
  else let '(c, tbl) := collect_factors (factors_of a ++ factors_of b) in
       Ok (rebuild_factors c tbl).

(** [-a] is [(-1) * a]; [a - b] is [a + (-b)]. *)
Definition neg (a : Expr) : outcome Expr := mul (Integer (-1)) a.

Definition sub (a b : Expr) : outcome Expr :=
  nb <- neg b ;; Ok (add a nb).

(** Integer power of a rational number, reduced. *)
Definition Qpow (q : Q) (n : Z) : Q := Qred (Qpower q n).

(** Power of a factor that is not itself a product. *)
Definition pow_factor (b : Expr) (n : Z) : outcome Expr :=
  if Z.eqb n 0 then Ok one
  else if Z.eqb n 1 then Ok b
  else match b with
       | Number q =>
           if Qeqb q 0 && Z.ltb n 0 then Beyond (* zoo *)
           else Ok (Number (Qpow q n))
       | Symbol _ | Add _ => Ok (Pow b n)
       | Pow c m => Ok (power (c, m * n))
       | ImaginaryUnit | Mul _ => Beyond
       end.

(** [b ** n] for an integer [n]: [(a*b)**n] is [a**n * b**n],
    [(x**m)**n] is [x**(m*n)], a power of a sum stays as it is. *)
Definition pow (b : Expr) (n : Z) : outcome Expr :=
  match b with
  | Mul l =>
      fold_left (fun acc f => a <- acc ;; p <- pow_factor f n ;; mul a p)
                l (Ok one)
  | _ => pow_factor b n
  end.

(** The exponent of [**] must evaluate to an integer. *)
Definition pow_expr (b e : Expr) : outcome Expr :=
  match e with
  | Number (n # 1) => pow b n
  | _ => Beyond
  end.

(** [a / b] is [a * b**(-1)]. *)
Definition div (a b : Expr) : outcome Expr :=
  r <- pow b (-1) ;; mul a r.

(** ** Free symbols *)

Fixpoint free_symbols (e : Expr) : list ascii :=
  match e with
  | Symbol s => [s]
  | Number _ | ImaginaryUnit => []
  | Pow b _ => free_symbols b
  | Add l | Mul l => flat_map free_symbols l
  end.

Definition has_symbol (x : ascii) (e : Expr) : bool :=
  existsb (Ascii.eqb x) (free_symbols e).

(** ** Tokens

    Python's tokenizer on the fragment's alphabet.  [OP_EQ] is a lone
    [=]; it can be tokenized but never belongs to an expression. *)
Inductive token : Type :=
| NUMBER (n : Z)
| NAME (c : ascii)
| OP_PLUS | OP_MINUS | OP_STAR | OP_SLASH | OP_POW
| LPAR | RPAR
| OP_EQ.

Definition is_digit (c : ascii) : bool :=
  let n := nat_of_ascii c in (48 <=? n)%nat && (n <=? 57)%nat.

Definition is_lower (c : ascii) : bool :=
  let n := nat_of_ascii c in (97 <=? n)%nat && (n <=? 122)%nat.

Definition digit_value (c : ascii) : Z := Z.of_nat (nat_of_ascii c) - 48.

(** Read a run of digits: its value, its length and the rest. *)
Fixpoint read_digits (acc : Z) (len : nat) (s : string) : Z * nat * string :=
  match s with
  | String c r =>
      if is_digit c then read_digits (10 * acc + digit_value c) (S len) r
      else (acc, len, s)
  | EmptyString => (acc, len, s)
  end.

Definition head_is (f : ascii -> bool) (s : string) : bool :=
  match s with
  | String c _ => f c
  | EmptyString => false
  end.

Definition is_char (a : ascii) (c : ascii) : bool := Ascii.eqb a c.

(** Letters that turn a digit run into another kind of literal
    ([2e3], [2j], [0x1f], [0o7], [0b1]): outside the fragment. *)
Definition literal_suffix (c : ascii) : bool :=
  existsb (Ascii.eqb c) ["e"; "j"]%char.

Definition radix_prefix (c : ascii) : bool :=
  existsb (Ascii.eqb c) ["x"; "o"; "b"]%char.

Definition tail (s : string) : string :=
  match s with
  | String _ r => r
  | EmptyString => s
  end.

(** The rest of the text after a run of blanks. *)
Fixpoint skip_blanks (s : string) : string :=
  match s with
  | String c r => if is_char " " c then skip_blanks r else s
  | EmptyString => s
  end.

(** CPython converts no integer of more than 4300 digits to or from
    a decimal string ([sys.get_int_max_str_digits()]). *)
Definition max_str_digits : nat := 4300.

(** [parse_expr] turns the tokens back into source text before it
    evaluates them ([untokenize]), and that text has no blank
    between two operators: [* *] is read as [**], [/ /] as [//] and
    [= =] as [==].  Two operators that would be glued that way are
    outside the fragment, whether or not blanks separate them; so are
    the augmented assignments ([+=], ...) and a literal of more than
    [max_str_digits] digits. *)
Fixpoint tokenize (fuel : nat) (s : string) : outcome (list token) :=
  match fuel with
  | O => Beyond
  | S fuel =>
      match s with
      | EmptyString => Ok []
      | String c r =>
          if is_char " " c then tokenize fuel r
          else if is_digit c then
            let '(n, len, r') := read_digits 0 0 s in
            if (is_char "0" c && ((2 <=? len)%nat || head_is radix_prefix r'))
               || head_is literal_suffix r'
               || (max_str_digits <? len)%nat
            then Beyond
            else ts <- tokenize fuel r' ;; Ok (NUMBER n :: ts)
          else if is_lower c then
            if head_is is_lower r || head_is is_digit r then Beyond
            else ts <- tokenize fuel r ;; Ok (NAME c :: ts)
          else if head_is (is_char "=") (skip_blanks r) then Beyond
          else if is_char "=" c then ts <- tokenize fuel r ;; Ok (OP_EQ :: ts)
          else if is_char "+" c then ts <- tokenize fuel r ;; Ok (OP_PLUS :: ts)
          else if is_char "-" c then ts <- tokenize fuel r ;; Ok (OP_MINUS :: ts)
          else if is_char "(" c then ts <- tokenize fuel r ;; Ok (LPAR :: ts)
          else if is_char ")" c then ts <- tokenize fuel r ;; Ok (RPAR :: ts)
          else if is_char "/" c then
            if head_is (is_char "/") (skip_blanks r) then Beyond
            else ts <- tokenize fuel r ;; Ok (OP_SLASH :: ts)
          else if is_char "*" c then
            if head_is (is_char "*") r then
              let r' := tail r in
              if head_is (fun d => is_char "*" d || is_char "=" d) (skip_blanks r')
              then Beyond
              else ts <- tokenize fuel r' ;; Ok (OP_POW :: ts)
            else
              if head_is (is_char "*") (skip_blanks r) then Beyond
              else ts <- tokenize fuel r ;; Ok (OP_STAR :: ts)
          else Beyond
      end
  end.

(** Parentheses must match and [()] is a tuple: both outside the
    fragment. *)
Fixpoint well_nested (depth : nat) (ts : list token) : bool :=
  match ts with
  | [] => Nat.eqb depth 0
  | LPAR :: RPAR :: _ => false
  | LPAR :: r => well_nested (S depth) r
  | RPAR :: r =>
      match depth with
      | O => false
      | S d => well_nested d r
      end
  | _ :: r => well_nested depth r
  end.

(** ** The transformation [implicit_multiplication_application]

    When it runs, [auto_number] and [auto_symbol] have wrapped every
    number [n] as [Integer(n)] and every name [c] as [Symbol('c')]
    (as [Function('c')] before a parenthesis, which the
    transformation turns back into [Symbol('c')]): SymPy groups each
    of them into an [AppliedFunction]. *)
Definition applied_function (t : token) : bool :=
  match t with
  | NUMBER _ | NAME _ => true
  | _ => false
  end.

(** The cases of [_implicit_multiplication] for a token and the next
    one: an applied function followed by an applied function or by
    an open parenthesis, and a close parenthesis followed by an
    applied function or by an open parenthesis. *)
Definition multiplied (tok nextTok : token) : bool :=
  if applied_function tok then
    if applied_function nextTok then true
    else match nextTok with LPAR => true | _ => false end
  else
    match tok with
    | RPAR =>
        if applied_function nextTok then true
        else match nextTok with LPAR => true | _ => false end
    | _ => false
    end.

Fixpoint implicit_multiplication (ts : list token) : list token :=
  match ts with
  | [] => []
  | tok :: r =>
      match r with
      | [] => [tok]
      | nextTok :: _ =>
          if multiplied tok nextTok
          then tok :: OP_STAR :: implicit_multiplication r
          else tok :: implicit_multiplication r
      end
  end.

(** ** Python's expression grammar

    [a_expr ::= m_expr (("+" | "-") m_expr)*],
    [m_expr ::= u_expr (("*" | "/") u_expr)*],
    [u_expr ::= ("-" | "+") u_expr | power],
    [power  ::= atom ["**" u_expr]],
    [atom   ::= NUMBER | NAME | "(" a_expr ")"]. *)
Inductive binop : Type := BAdd | BSub | BMult | BDiv | BPow.

Inductive ast : Type :=
| ANum (n : Z)
| AName (c : ascii)
| ABin (op : binop) (l r : ast)
| ANeg (a : ast)
| APos (a : ast).

Definition parsed : Type := outcome (ast * list token).

Fixpoint a_expr (fuel : nat) (ts : list token) {struct fuel} : parsed :=
  match fuel with
  | O => Beyond
  | S fuel => lr <- m_expr fuel ts ;; a_rest fuel (fst lr) (snd lr)
  end
with a_rest (fuel : nat) (l : ast) (ts : list token) {struct fuel} : parsed :=
  match fuel with
  | O => Beyond
  | S fuel =>
      match ts with
      | OP_PLUS :: r => xr <- m_expr fuel r ;; a_rest fuel (ABin BAdd l (fst xr)) (snd xr)
      | OP_MINUS :: r => xr <- m_expr fuel r ;; a_rest fuel (ABin BSub l (fst xr)) (snd xr)
      | _ => Ok (l, ts)
      end
  end
with m_expr (fuel : nat) (ts : list token) {struct fuel} : parsed :=
  match fuel with
  | O => Beyond
  | S fuel => lr <- u_expr fuel ts ;; m_rest fuel (fst lr) (snd lr)
  end
with m_rest (fuel : nat) (l : ast) (ts : list token) {struct fuel} : parsed :=
  match fuel with
  | O => Beyond
  | S fuel =>
      match ts with
      | OP_STAR :: r => xr <- u_expr fuel r ;; m_rest fuel (ABin BMult l (fst xr)) (snd xr)
      | OP_SLASH :: r => xr <- u_expr fuel r ;; m_rest fuel (ABin BDiv l (fst xr)) (snd xr)
      | _ => Ok (l, ts)
      end
  end
with u_expr (fuel : nat) (ts : list token) {struct fuel} : parsed :=
  match fuel with
  | O => Beyond
  | S fuel =>
      match ts with
      | OP_MINUS :: r => xr <- u_expr fuel r ;; Ok (ANeg (fst xr), snd xr)
      | OP_PLUS :: r => xr <- u_expr fuel r ;; Ok (APos (fst xr), snd xr)
      | _ => power_expr fuel ts
      end
  end
with power_expr (fuel : nat) (ts : list token) {struct fuel} : parsed :=
  match fuel with
  | O => Beyond
  | S fuel =>
      br <- atom fuel ts ;;
      match snd br with
      | OP_POW :: r => xr <- u_expr fuel r ;; Ok (ABin BPow (fst br) (fst xr), snd xr)
      | _ => Ok br
      end
  end
with atom (fuel : nat) (ts : list token) {struct fuel} : parsed :=
  match fuel with
  | O => Beyond
  | S fuel =>
      match ts with
      | NUMBER n :: r => Ok (ANum n, r)
      | NAME c :: r => Ok (AName c, r)
      | LPAR :: r =>
          er <- a_expr fuel r ;;
          match snd er with
          | RPAR :: r' => Ok (fst er, r')
          | _ => Raise SyntaxError
          end
      | _ => Raise SyntaxError
      end
  end.

(** [compile(code, "eval")]: the whole token list must be one
    expression, else [SyntaxError]. *)
Definition compile_eval (ts : list token) : outcome ast :=
  er <- a_expr (6 * List.length ts + 6) ts ;;
  match snd er with
  | [] => Ok (fst er)
  | _ :: _ => Raise SyntaxError
  end.

(** [eval]: numbers are wrapped by [Integer(...)], names by
    [Symbol(...)], operators dispatch to SymPy's. *)
Fixpoint eval_expr (a : ast) : outcome Expr :=
  match a with
  | ANum n => Ok (Integer n)
  | AName c => Ok (Symbol c)
  | ANeg a => x <- eval_expr a ;; neg x
  | APos a => eval_expr a
  | ABin op l r =>
      x <- eval_expr l ;;
      y <- eval_expr r ;;
      match op with
      | BAdd => Ok (add x y)
      | BSub => sub x y
      | BMult => mul x y
      | BDiv => div x y
      | BPow => pow_expr x y
      end
  end.

(** The ASCII white space [str.strip] removes.  [str.strip] also
    removes the white space outside ASCII (U+0085, U+00A0, ...);
    whatever the model leaves in place is rejected by [tokenize], so
    that a text with such characters is outside the fragment. *)
Definition is_space (c : ascii) : bool :=
  let n := nat_of_ascii c in
  ((9 <=? n)%nat && (n <=? 13)%nat) || ((28 <=? n)%nat && (n <=? 32)%nat).

Fixpoint lstrip (s : string) : string :=
  match s with
  | String c r => if is_space c then lstrip r else s
  | EmptyString => s
  end.

Fixpoint rstrip (s : string) : string :=
  match s with
  | String c r =>
      match rstrip r with
      | EmptyString => if is_space c then EmptyString else String c EmptyString
      | r' => String c r'
      end
  | EmptyString => s
  end.

Definition strip (s : string) : string := rstrip (lstrip s).

(** The Python source [parse_expr] hands to [eval]. *)
Definition stringify_expr (s : string) : outcome (list token) :=
  let s := strip s in
  ts <- tokenize (S (String.length s)) s ;;
  if well_nested 0 ts then Ok (implicit_multiplication ts) else Beyond.

(** [parse_expr(s, transformations = standard_transformations +
    (implicit_multiplication_application,))]. *)
Definition parse_expr (s : string) : outcome Expr :=
  ts <- stringify_expr s ;;
  a <- compile_eval ts ;;
  eval_expr a.

(** ** Expansion to a sum of monomials

    Used by the models of [simplify] and [solve]: products of sums
    and positive powers of sums are multiplied out. *)
Definition expand_mul (a b : Expr) : outcome Expr :=
  fold_left
    (fun acc ta =>
       fold_left
         (fun acc tb => s <- acc ;; p <- mul ta tb ;; Ok (add s p))
         (terms_of b) acc)
    (terms_of a) (Ok zero).

Fixpoint expand_pow (b : Expr) (n : nat) : outcome Expr :=
  match n with
  | O => Ok one
  | S k => r <- expand_pow b k ;; expand_mul r b
  end.

Fixpoint expand (e : Expr) : outcome Expr :=
  match e with
  | Number _ | Symbol _ => Ok e
  | ImaginaryUnit => Beyond
  | Add l => fold_left (fun acc t => s <- acc ;; x <- expand t ;; Ok (add s x)) l (Ok zero)
  | Mul l => fold_left (fun acc f => s <- acc ;; x <- expand f ;; expand_mul s x) l (Ok one)
  | Pow b n =>
      if Z.ltb 0 n then x <- expand b ;; expand_pow x (Z.to_nat n)
      else match b with
           | Symbol _ => Ok e
           | _ => Beyond
           end
  end.

(** ** [simplify]

    SymPy's [simplify] is a heuristic.  The model commits to its
    result only where it is certain: a number or a symbol is returned
    unchanged, a polynomial expression that is identically a constant
    becomes that constant, and [symbol + integer] is returned
    unchanged. *)
Definition simplify (e : Expr) : outcome Expr :=
  match e with
  | Number _ | Symbol _ => Ok e
  | _ =>
      p <- expand e ;;
      match p with
      | Number q => Ok (Number q)
      | _ =>
          match e with
          | Add [Number (_ # 1); Symbol _] => Ok e
          | _ => Beyond
          end
      end
  end.

(** ** [solve]

    The coefficients of an expanded expression as a polynomial in [x]
    with rational coefficients: pairs (degree, coefficient). *)
Definition monomial_degree (x : ascii) (r : Expr) : outcome nat :=
  match r with
  | Number (1 # 1) => Ok O
  | Symbol s => if Ascii.eqb s x then Ok 1%nat else Beyond
  | Pow (Symbol s) k => if Ascii.eqb s x && Z.ltb 0 k then Ok (Z.to_nat k) else Beyond
  | _ => Beyond
  end.

Fixpoint poly_terms (x : ascii) (ts : list Expr) : outcome (list (nat * Q)) :=
  match ts with
  | [] => Ok []
  | t :: r =>
      let '(c, m) := as_coeff_Mul t in
      d <- monomial_degree x m ;;
      ps <- poly_terms x r ;;
      Ok ((d, c) :: ps)
  end.

Definition coeff (ps : list (nat * Q)) (d : nat) : Q :=
  fold_left (fun acc dc => if Nat.eqb (fst dc) d then Qred (acc + snd dc) else acc)
            ps (0%Q).

(** The largest degree listed, and the degree of the polynomial:
    the largest one whose coefficient is not zero. *)
Definition max_degree (ps : list (nat * Q)) : nat :=
  fold_left (fun acc dc => Nat.max acc (fst dc)) ps O.

Fixpoint top_degree (ps : list (nat * Q)) (d : nat) : nat :=
  match d with
  | O => O
  | S k => if Qeqb (coeff ps d) 0 then top_degree ps k else d
  end.

Definition degree (ps : list (nat * Q)) : nat := top_degree ps (max_degree ps).

(** Exact square root of a non-negative reduced rational, if any. *)
Definition Qsqrt (q : Q) : option Q :=
  let n := Qnum q in
  let d := Zpos (Qden q) in
  let rn := Z.sqrt n in
  let rd := Z.sqrt d in
  if Z.leb 0 n && Z.eqb (rn * rn) n && Z.eqb (rd * rd) d
  then Some (Qred (rn # Z.to_pos rd))
  else None.

(** The number [q*I]. *)
Definition imaginary (q : Q) : Expr :=
  if Qeqb q 1 then ImaginaryUnit else Mul [Number q; ImaginaryUnit].

Definition Qabs_red (q : Q) : Q := Qred (Qabs q).

(** A power with a negative exponent: the expression has a
    denominator. *)
Fixpoint has_denominator (e : Expr) : bool :=
  match e with
  | Number _ | Symbol _ | ImaginaryUnit => false
  | Pow b n => Z.ltb n 0 || has_denominator b
  | Add l | Mul l => existsb has_denominator l
  end.

(** [solve(e, x)] for a polynomial of degree at most two with
    rational coefficients whose roots are rational or have rational
    real and imaginary parts.  For such roots the list is sorted as
    SymPy sorts it: real roots ascending, and the root with negative
    imaginary part before its conjugate.  SymPy discards a root at
    which a denominator of [e] vanishes; an expression with a
    denominator is outside the fragment. *)
Definition solve (e : Expr) (x : ascii) : outcome (list Expr) :=
  if has_denominator e then Beyond else
  p <- expand e ;;
  if negb (has_symbol x p) then Ok []
  else
    ps <- poly_terms x (terms_of p) ;;
    let c0 := coeff ps 0 in
    let c1 := coeff ps 1 in
    let c2 := coeff ps 2 in
    match degree ps with
    | O => Ok []
    | 1%nat => Ok [Number (Qred (- c0 / c1))]
    | 2%nat =>
        let disc := Qred (c1 * c1 - 4 * c2 * c0) in
        let mid := Qred (- c1 / (2 * c2)) in
        if Qeqb disc 0 then Ok [Number mid]
        else if Qle_bool 0 disc then
          match Qsqrt disc with
          | Some s =>
              let h := Qabs_red (s / (2 * c2)) in
              Ok [Number (Qred (mid - h)); Number (Qred (mid + h))]
          | None => Beyond
          end
        else
          match Qsqrt (Qred (- disc)) with
          | Some s =>
              let h := Qabs_red (s / (2 * c2)) in
              Ok [add (Number mid) (imaginary (Qred (- h)));
                  add (Number mid) (imaginary h)]
          | None => Beyond
          end
    | _ => Beyond
    end.

(** ** [str]: the string printer

    Modelled on numbers, symbols, [I], a rational multiple of a
    symbol or of [I], and the sum of a number and such a term. *)
Definition str_Z (n : Z) : string := NilZero.string_of_int (Z.to_int n).

Definition str_Q (q : Q) : string :=
  match Qden q with
  | 1%positive => str_Z (Qnum q)
  | d => str_Z (Qnum q) ++ "/" ++ str_Z (Zpos d)
  end.

(** The number of decimal digits of an integer, and whether both
    integers of a fraction can be printed. *)
Definition digits (n : Z) : nat := String.length (str_Z (Z.abs n)).

Definition printable (q : Q) : bool :=
  (digits (Qnum q) <=? max_str_digits)%nat
  && (digits (Zpos (Qden q)) <=? max_str_digits)%nat.

Definition str_atom (a : Expr) : option string :=
  match a with
  | Symbol c => Some (String c EmptyString)
  | ImaginaryUnit => Some "I"%string
  | _ => None
  end.

(** [|c| * a] printed as [a], [3*a], [a/2] or [3*a/2]. *)
Definition str_abs_term (c : Q) (a : string) : string :=
  let n := Z.abs (Qnum c) in
  ((if Z.eqb n 1 then a else str_Z n ++ "*" ++ a)
   ++ match Qden c with
      | 1%positive => ""
      | d => "/" ++ str_Z (Zpos d)
      end)%string.

Definition is_negative (c : Q) : bool := Z.ltb (Qnum c) 0.

Definition signed (neg : bool) (s : string) : string :=
  if neg then ("-" ++ s)%string else s.

(** A term [c*a] with [a] a symbol or [I]: coefficient, atom. *)
Definition as_atom_term (t : Expr) : option (Q * Expr) :=
  match t with
  | Symbol _ | ImaginaryUnit => Some (1%Q, t)
  | Mul [Number c; (Symbol _) as a] => Some (c, a)
  | Mul [Number c; ImaginaryUnit as a] => Some (c, a)
  | _ => None
  end.

Definition join_terms (first : string) (neg : bool) (second : string) : string :=
  (first ++ (if neg then " - " else " + ") ++ second)%string.

(** The printed text, where every integer in it can be printed. *)
Definition str_text (e : Expr) : option string :=
  match e with
  | Number q => Some (str_Q q)
  | Add [Number p; t] =>
      match as_atom_term t with
      | Some (c, a) =>
          match str_atom a with
          | Some sa =>
              let st := str_abs_term c sa in
              let sp := str_Q (Qabs p) in
              match a with
              | ImaginaryUnit =>
                  Some (join_terms (signed (is_negative p) sp) (is_negative c) st)
              | _ =>
                  if negb (is_negative p) && is_negative c
                  then Some (join_terms sp true st)
                  else Some (join_terms (signed (is_negative c) st) (is_negative p) sp)
              end
          | None => None
          end
      | None => None
      end
  | _ =>
      match as_atom_term e with
      | Some (c, a) =>
          match str_atom a with
          | Some sa => Some (signed (is_negative c) (str_abs_term c sa))
          | None => None
          end
      | None => None
      end
  end.

(** The numbers [str] prints: each is printed through [str(int)]. *)
Definition printed_numbers (e : Expr) : list Q :=
  match e with
  | Number q => [q]
  | Add [Number p; t] => p :: match as_atom_term t with Some (c, _) => [c] | None => [] end
  | _ => match as_atom_term e with Some (c, _) => [c] | None => [] end
  end.

(** [str(e)]: a [ValueError] when an integer of more than
    [max_str_digits] digits has to be printed. *)
Definition str (e : Expr) : outcome string :=
  match str_text e with
  | Some s => if forallb printable (printed_numbers e) then Ok s else Raise ValueError
  | None => Beyond
  end.

(** ** [float]

    A Python float is a finite double (given by its exact value) or
    an infinity. *)
Inductive pyfloat : Type :=
| Finite (v : Q)
| Infinite (negative : bool).

(** [a = p/d > 0] rounded to 53 significant bits, ties to even. *)
Definition round53 (p d : Z) : Q :=
  let k0 := Z.log2 p - Z.log2 d in
  let below := if Z.leb 0 k0 then Z.ltb p (d * 2 ^ k0) else Z.ltb (p * 2 ^ (- k0)) d in
  let k := if below then k0 - 1 else k0 in
  let s := 52 - k in
  let N := if Z.leb 0 s then p * 2 ^ s else p in
  let D := if Z.leb 0 s then d else d * 2 ^ (- s) in
  let f := N / D in
  let r := N mod D in
  let m := if Z.ltb (2 * r) D then f
           else if Z.ltb D (2 * r) then f + 1
           else if Z.even f then f else f + 1 in
  if Z.leb 0 s then Qred (m # Z.to_pos (2 ^ s)) else ((m * 2 ^ (- s)) # 1).

(** [float(q)] for a rational [q]: the nearest double; a magnitude
    of [2**1024] or more becomes an infinity; magnitudes in the
    subnormal range are outside the fragment. *)
Definition float_Q (q : Q) : outcome pyfloat :=
  let n := Qnum q in
  let d := Zpos (Qden q) in
  if Z.eqb n 0 then Ok (Finite 0)
  else
    let p := Z.abs n in
    if Z.ltb (p * 2 ^ 1022) d then Beyond
    else
      let v := round53 p d in
      if Qle_bool (2 ^ 1024 # 1) v then Ok (Infinite (Z.ltb n 0))
      else Ok (Finite (if Z.ltb n 0 then Qred (- v) else v)).

(** [float(e)]: a [TypeError] unless [e] is a real number. *)
Definition float (e : Expr) : outcome pyfloat :=
  match e with
  | Number q => float_Q q
  | _ => Raise TypeError
  end.

(** [int(f)]: truncation; an infinity raises [OverflowError]. *)
Definition int (f : pyfloat) : outcome Z :=
  match f with
  | Finite v => Ok (Z.quot (Qnum v) (Zpos (Qden v)))
  | Infinite _ => Raise OverflowError
  end.

(** [f == n] for a float and an int. *)
Definition float_eq_int (f : pyfloat) (n : Z) : bool :=
  match f with
  | Finite v => Qeqb v (n # 1)
  | Infinite _ => false
  end.

End Sympy.

(** * The application: [backend/app.py] *)

Module App.
Import Sympy.

Open Scope string_scope.

(** ** Python string operations used by the source *)

(** [s.replace("^", "**")] *)
Fixpoint replace_caret (s : string) : string :=
  match s with
  | String c r =>
      if Ascii.eqb c "^" then String "*" (String "*" (replace_caret r))
      else String c (replace_caret r)
  | EmptyString => EmptyString
  end.

(** [s.replace("I", "i")] *)
Fixpoint replace_I (s : string) : string :=
  match s with
  | String c r => String (if Ascii.eqb c "I" then "i"%char else c) (replace_I r)
  | EmptyString => EmptyString
  end.

(** Every byte of [s] is an ASCII character. *)
Fixpoint is_ascii (s : string) : bool :=
  match s with
  | String c r => (nat_of_ascii c <? 128)%nat && is_ascii r
  | EmptyString => true
  end.

(** ["=" in s] *)
Fixpoint has_equals (s : string) : bool :=
  match s with
  | String c r => Ascii.eqb c "=" || has_equals r
  | EmptyString => false
  end.

(** [s.split("=", 1)] for a string that contains ["="]. *)
Fixpoint split_equals (s : string) : string * string :=
  match s with
  | String c r =>
      if Ascii.eqb c "=" then (EmptyString, r)
      else let '(l, r') := split_equals r in (String c l, r')
  | EmptyString => (EmptyString, EmptyString)
  end.

(** [sep.join(l)] *)
Fixpoint join (sep : string) (l : list string) : string :=
  match l with
  | [] => ""
  | [s] => s
  | s :: r => s ++ sep ++ join sep r
  end.

(** ** [parse_equation] *)
Definition parse_equation (equation_str : string) : outcome Expr :=
  let equation_str := replace_caret equation_str in
  if has_equals equation_str then
    let parts := split_equals equation_str in
    left_expr <- parse_expr (strip (fst parts)) ;;
    right_expr <- parse_expr (strip (snd parts)) ;;
    sub left_expr right_expr
  else
    parse_expr equation_str.

(** ** [solve_equation]

    The returned Python list holds the marker string ["EVAL"],
    expressions, or the set [S.Reals]. *)
Inductive item : Type :=
| Str (s : string)
| Val (e : Expr)
| Reals.

(** [symbols(variable)]: one symbol of the fragment. *)
Definition symbols (variable : string) : outcome ascii :=
  match variable with
  | String c EmptyString => if is_lower c then Ok c else Beyond
  | _ => Beyond
  end.

Definition solve_equation (equation_str : string) (variable : string)
  : outcome (list item) :=
  equation <- parse_equation equation_str ;;
  x <- symbols variable ;;
  if negb (has_symbol x equation) then
    result <- simplify equation ;;
    Ok [Str "EVAL"; Val result]
  else
    solutions <- Sympy.solve equation x ;;
    match solutions with
    | [] =>
        simplified <- simplify equation ;;
        if eqb simplified zero then Ok [Reals] else Ok (map Val solutions)
    | _ :: _ => Ok (map Val solutions)
    end.

(** ** [format_solutions] *)
Definition is_EVAL (i : item) : bool :=
  match i with
  | Str s => String.eqb s "EVAL"
  | _ => false
  end.

Definition is_Reals (i : item) : bool :=
  match i with
  | Reals => true
  | _ => false
  end.

(** [str(sol)] *)
Definition item_str (i : item) : outcome string :=
  match i with
  | Val e => str e
  | Str s => Ok s
  | Reals => Ok "Reals"
  end.

(** The [except (ValueError, TypeError)] clause. *)
Definition caught (e : exn) : bool :=
  match e with
  | ValueError | TypeError => true
  | _ => false
  end.

(** Lines 51-55: [Some s] when the [return] inside [try] is taken,
    [None] when control reaches line 56. *)
Definition try_integer (result : Expr) : outcome (option string) :=
  match float result with
  | Ok f =>
      match int f with
      | Ok n => if float_eq_int f n then Ok (Some (str_Z n)) else Ok None
      | Raise e => if caught e then Ok None else Raise e
      | Beyond => Beyond
      end
  | Raise e => if caught e then Ok None else Raise e
  | Beyond => Beyond
  end.

Definition format_root (sol : item) : outcome string :=
  s <- item_str sol ;; Ok ("x = " ++ replace_I s).

Fixpoint format_roots (solutions : list item) : outcome (list string) :=
  match solutions with
  | [] => Ok []
  | sol :: r =>
      f <- format_root sol ;;
      fs <- format_roots r ;;
      Ok (f :: fs)
  end.

(** [len(solutions) == 2 and solutions[0] == "EVAL"]: the second
    element when the test holds. *)
Definition eval_result (solutions : list item) : option item :=
  match solutions with
  | [tag; result] => if is_EVAL tag then Some result else None
  | _ => None
  end.

(** A character that occurs in no text [float] accepts: an ASCII
    letter other than those of an exponent, of [inf], [infinity] and
    [nan]. *)
Definition no_float_char (c : ascii) : bool :=
  let n := nat_of_ascii c in
  (((65 <=? n)%nat && (n <=? 90)%nat) || ((97 <=? n)%nat && (n <=? 122)%nat))
  && negb (existsb (Ascii.eqb c)
             ["e"; "E"; "i"; "I"; "n"; "N"; "f"; "F"; "t"; "T"; "y"; "Y"; "a"; "A"]%char).

Definition not_a_float (s : string) : bool :=
  existsb no_float_char (list_ascii_of_string s).

(** Lines 50-57.  For an expression, [float] and [int] decide
    between the integer text and [str].  [float(S.Reals)] raises
    [TypeError] and [float] of a string that is no number raises
    [ValueError]: both are caught and [str(result)] is returned; a
    string that may be a number is outside the fragment. *)
Definition format_eval (result : item) : outcome string :=
  match result with
  | Val result =>
      r <- try_integer result ;;
      match r with
      | Some s => Ok s
      | None => s <- str result ;; Ok (replace_I s)
      end
  | Reals => Ok (replace_I "Reals")
  | Str s => if not_a_float s then Ok (replace_I s) else Beyond
  end.

Definition format_solutions (solutions : list item) : outcome string :=
  match solutions with
  | [] => Ok "No solution exists"
  | _ :: _ =>
      match eval_result solutions with
      | Some result => format_eval result
      | None =>
          if existsb is_Reals solutions then Ok "x can be any real number"
          else
            formatted <- format_roots solutions ;;
            Ok (join " or " formatted)
      end
  end.

(** ** The [/solve] route *)
Inductive json : Type :=
| Result (text : string)
| Error (message : string).

Definition response : Type := json * Z.

(** The first [except] clause of the route. *)
Definition invalid_input (e : exn) : bool :=
  match e with
  | SympifyError | ValueError | TypeError => true
  | _ => false
  end.

(** [request.args.get("equation")] is [None] or a string.  A string
    is modelled by the bytes of its UTF-8 text: [len] counts
    characters, which are the bytes when the text is ASCII, so a text
    of more than 500 bytes that is not ASCII is outside the
    fragment. *)
Definition solve (equation_arg : option string) : outcome response :=
  let equation := strip (match equation_arg with Some s => s | None => "" end) in
  if String.eqb equation "" then
    Ok (Error "Missing 'equation' query parameter", 400)
  else if (500 <? String.length equation)%nat then
    if is_ascii equation
    then Ok (Error "Equation too long (max 500 characters)", 400)
    else Beyond
  else
    match (solutions <- solve_equation equation "x" ;; format_solutions solutions) with
    | Ok result_text => Ok (Result result_text, 200)
    | Raise e =>
        if invalid_input e
        then Ok (Error "Invalid equation syntax. Please check your input.", 400)
        else Ok (Error "Failed to solve equation. Please try a simpler form.", 500)
    | Beyond => Beyond
    end.

End App.

(** * Properties *)

Import Sympy App.
Open Scope string_scope.
(** ** Notions used in the statements *)

(** The text the pipeline produces for an input and a variable. *)
Definition render (equation_str variable : string) : outcome string :=
  solutions <- solve_equation equation_str variable ;;
  format_solutions solutions.

(** The text of one root. *)
Definition root_text (s : string) : string := "x = " ++ replace_I s.

(** The syntax tree Python builds for an input. *)
Definition syntax_tree (s : string) : outcome ast :=
  ts <- stringify_expr s ;; compile_eval ts.

(** The canonical expression [k + c*x]. *)
Definition Lin (k c : Q) : Expr := rebuild_terms [(one, k); (Symbol "x", c)].


(** Every character is white space. *)
Fixpoint all_spaces (s : string) : bool :=
  match s with
  | String c r => is_space c && all_spaces r
  | EmptyString => true
  end.

(** The value of [(request.args.get("equation") or "").strip()]. *)
Definition stripped_equation (equation_arg : option string) : string :=
  strip (match equation_arg with Some s => s | None => "" end).

(** The four error responses of the route. *)
Definition missing : response := (Error "Missing 'equation' query parameter", 400%Z).
Definition too_long : response := (Error "Equation too long (max 500 characters)", 400%Z).
Definition invalid : response :=
  (Error "Invalid equation syntax. Please check your input.", 400%Z).
Definition failed : response :=
  (Error "Failed to solve equation. Please try a simpler form.", 500%Z).

(** The character [a] does not occur in [s]. *)
Fixpoint no_char (a : ascii) (s : string) : bool :=
  match s with
  | String c r => negb (Ascii.eqb c a) && no_char a r
  | EmptyString => true
  end.

(** A digit or a minus sign. *)
Definition sign_or_digit (c : ascii) : bool := is_digit c || Ascii.eqb c "-".

Fixpoint numeral_chars (s : string) : bool :=
  match s with
  | String c r => sign_or_digit c && numeral_chars r
  | EmptyString => true
  end.

(** How a printed expression starts: with a digit or a sign, or with
    one character that stands alone or is followed by [/], [ + ] or
    [ - ]. *)
Definition printed_start (s : string) : Prop :=
  match s with
  | String a r =>
      sign_or_digit a = true \/
      match r with
      | EmptyString => True
      | String b r' =>
          b = "/"%char \/
          (b = " "%char /\
           match r' with
           | String c _ => c = "+"%char \/ c = "-"%char
           | EmptyString => False
           end)
      end
  | EmptyString => False
  end.


(** An operand ends with a number, a symbol or a closing
    parenthesis, and starts with a number, a symbol or an opening
    parenthesis. *)
Definition ends_operand (t : token) : bool :=
  match t with
  | NUMBER _ | NAME _ | RPAR => true
  | _ => false
  end.

Definition starts_operand (t : token) : bool :=
  match t with
  | NUMBER _ | NAME _ | LPAR => true
  | _ => false
  end.

(** The explicit-operator form of a token list: a [*] is written
    between two adjacent tokens whenever the first ends an operand
    and the second starts one. *)
Fixpoint explicit_operator_form (ts : list token) : list token :=
  match ts with
  | [] => []
  | t :: r =>
      match r with
      | [] => [t]
      | u :: _ =>
          if ends_operand t && starts_operand u
          then t :: OP_STAR :: explicit_operator_form r
          else t :: explicit_operator_form r
      end
  end.

(** The tokens of an input without [=], or of one side of an
    equation, as [parse_equation] hands it to the tokenizer. *)
Definition tokens_of (s : string) : outcome (list token) :=
  let text := strip (replace_caret s) in
  tokenize (S (String.length text)) text.







Local Abbreviation X := (Symbol "x").

(** ** Python's string operations *)

Lemma lstrip_empty (s : string) : lstrip s = "" <-> all_spaces s = true.
Proof.
  induction s as [|c r IH]; cbn [lstrip all_spaces]; [tauto|].
  destruct (is_space c); cbn [andb]; [exact IH|]. split; discriminate.
Qed.

Lemma lstrip_head (s : string) :
  match lstrip s with
  | String c _ => is_space c = false
  | EmptyString => True
  end.
Proof.
  induction s as [|c r IH]; cbn [lstrip]; [exact I|].
  destruct (is_space c) eqn:E; [exact IH|exact E].
Qed.

Lemma rstrip_head (c : ascii) (r : string) :
  is_space c = false -> exists r', rstrip (String c r) = String c r'.
Proof.
  intros Hc. cbn [rstrip]. destruct (rstrip r); [rewrite Hc|]; eexists; reflexivity.
Qed.

Lemma rstrip_nonspace (c : ascii) (r : string) :
  is_space c = false -> rstrip (String c r) = String c (rstrip r).
Proof.
  intros H. cbn [rstrip]. destruct (rstrip r); [rewrite H|]; reflexivity.
Qed.

Lemma rstrip_idempotent (s : string) : rstrip (rstrip s) = rstrip s.
Proof.
  induction s as [|c r IH]; [reflexivity|]. cbn [rstrip].
  destruct (rstrip r) as [|d r'] eqn:E.
  - destruct (is_space c) eqn:Hc; [reflexivity|]. cbn [rstrip]. rewrite Hc. reflexivity.
  - cbn [rstrip] in IH |- *. rewrite IH. reflexivity.
Qed.

Lemma strip_empty (s : string) : strip s = "" <-> all_spaces s = true.
Proof.
  unfold strip. rewrite <- lstrip_empty. split.
  - intros H. pose proof (lstrip_head s) as Hh. destruct (lstrip s) as [|c r]; [reflexivity|].
    destruct (rstrip_head c r Hh) as (r' & Hr). rewrite Hr in H. discriminate.
  - intros ->. reflexivity.
Qed.

Lemma strip_idempotent (s : string) : strip (strip s) = strip s.
Proof.
  unfold strip. pose proof (lstrip_head s) as Hh.
  destruct (lstrip s) as [|c r]; [reflexivity|].
  destruct (rstrip_head c r Hh) as (r' & Hr). rewrite Hr.
  cbn [lstrip]. rewrite Hh. rewrite <- Hr. apply rstrip_idempotent.
Qed.

Lemma replace_caret_idempotent (s : string) :
  replace_caret (replace_caret s) = replace_caret s.
Proof.
  induction s as [|c r IH]; [reflexivity|]. cbn [replace_caret].
  destruct (Ascii.eqb c "^") eqn:E; cbn [replace_caret].
  - cbn. rewrite IH. reflexivity.
  - rewrite E, IH. reflexivity.
Qed.

Lemma replace_caret_app (s t : string) :
  replace_caret (s ++ t) = replace_caret s ++ replace_caret t.
Proof.
  induction s as [|c r IH]; [reflexivity|]. cbn [append replace_caret].
  rewrite IH. destruct (Ascii.eqb c "^"); reflexivity.
Qed.

Lemma has_equals_replace_caret (s : string) :
  has_equals (replace_caret s) = has_equals s.
Proof.
  induction s as [|c r IH]; [reflexivity|]. cbn [replace_caret].
  destruct (Ascii.eqb_spec c "^") as [->|E]; cbn [has_equals]; rewrite IH; reflexivity.
Qed.

Lemma split_equals_first (l r : string) :
  has_equals l = false ->
  has_equals (l ++ "=" ++ r) = true /\ split_equals (l ++ "=" ++ r) = (l, r).
Proof.
  induction l as [|c l IH]; cbn [has_equals append split_equals].
  - intros _. split; reflexivity.
  - intros H. apply orb_false_elim in H. destruct H as [Hc Hl].
    destruct (IH Hl) as [H1 H2]. rewrite Hc. cbn [orb].
    change (has_equals (l ++ String "=" r)) with (has_equals (l ++ "=" ++ r)).
    change (split_equals (l ++ String "=" r)) with (split_equals (l ++ "=" ++ r)).
    rewrite H1, H2. split; reflexivity.
Qed.

Lemma split_equals_join (s : string) :
  has_equals s = true ->
  s = fst (split_equals s) ++ "=" ++ snd (split_equals s)
  /\ has_equals (fst (split_equals s)) = false.
Proof.
  induction s as [|c r IH]; cbn [has_equals split_equals]; [discriminate|].
  destruct (Ascii.eqb_spec c "=") as [->|E].
  - intros _. split; reflexivity.
  - cbn [orb]. intros H. destruct (IH H) as [H1 H2].
    destruct (split_equals r) as [l r'] eqn:Es. cbn [fst snd] in *.
    split.
    + cbn [append]. f_equal. exact H1.
    + cbn [has_equals]. rewrite H2. apply Ascii.eqb_neq in E. rewrite E. reflexivity.
Qed.

Lemma is_space_not_caret (c : ascii) : is_space c = true -> Ascii.eqb c "^" = false.
Proof.
  intros H. destruct (Ascii.eqb_spec c "^") as [->|]; [discriminate|reflexivity].
Qed.

Lemma replace_caret_lstrip (s : string) :
  replace_caret (lstrip s) = lstrip (replace_caret s).
Proof.
  induction s as [|c r IH]; [reflexivity|]. cbn [lstrip].
  destruct (is_space c) eqn:Hc.
  - cbn [replace_caret]. rewrite (is_space_not_caret c Hc). cbn [lstrip].
    rewrite Hc. exact IH.
  - cbn [replace_caret]. destruct (Ascii.eqb c "^"); cbn [lstrip]; [reflexivity|].
    rewrite Hc. reflexivity.
Qed.

Lemma replace_caret_rstrip (s : string) :
  replace_caret (rstrip s) = rstrip (replace_caret s).
Proof.
  induction s as [|c r IH]; [reflexivity|].
  destruct (is_space c) eqn:Hc.
  - cbn [replace_caret]. rewrite (is_space_not_caret c Hc). cbn [rstrip].
    rewrite <- IH. destruct (rstrip r) as [|d r'] eqn:E.
    + rewrite Hc. reflexivity.
    + cbn [replace_caret]. rewrite (is_space_not_caret c Hc).
      destruct (Ascii.eqb d "^"); reflexivity.
  - rewrite (rstrip_nonspace c r Hc). cbn [replace_caret].
    destruct (Ascii.eqb c "^").
    + rewrite !rstrip_nonspace by reflexivity. rewrite IH. reflexivity.
    + rewrite (rstrip_nonspace c _ Hc), IH. reflexivity.
Qed.

Lemma replace_caret_strip (s : string) :
  replace_caret (strip s) = strip (replace_caret s).
Proof.
  unfold strip. rewrite replace_caret_rstrip, replace_caret_lstrip. reflexivity.
Qed.

Lemma has_equals_lstrip (s : string) :
  has_equals s = false -> has_equals (lstrip s) = false.
Proof.
  induction s as [|c r IH]; [reflexivity|]. cbn [lstrip].
  destruct (is_space c); [|auto]. cbn [has_equals]. intros H.
  apply orb_false_elim in H. apply IH, H.
Qed.

Lemma has_equals_rstrip (s : string) :
  has_equals s = false -> has_equals (rstrip s) = false.
Proof.
  induction s as [|c r IH]; [reflexivity|]. cbn [has_equals]. intros H.
  apply orb_false_elim in H. destruct H as [Hc Hr]. specialize (IH Hr).
  cbn [rstrip]. destruct (rstrip r) as [|d r'].
  - destruct (is_space c); [reflexivity|]. cbn [has_equals]. rewrite Hc. reflexivity.
  - cbn [has_equals] in IH |- *. rewrite Hc, IH. reflexivity.
Qed.

(** The two sides of an equation, as [parse_equation] parses them. *)
Lemma parse_equation_sides (l r : string) :
  has_equals l = false ->
  parse_equation (l ++ "=" ++ r)
  = (left_expr <- parse_expr (strip (replace_caret l)) ;;
     right_expr <- parse_expr (strip (replace_caret r)) ;;
     sub left_expr right_expr).
Proof.
  intros Hl. unfold parse_equation.
  rewrite replace_caret_app. change (replace_caret ("=" ++ r)) with ("=" ++ replace_caret r).
  assert (Hl' : has_equals (replace_caret l) = false)
    by (rewrite has_equals_replace_caret; exact Hl).
  destruct (split_equals_first (replace_caret l) (replace_caret r) Hl') as [H1 H2].
  rewrite H1, H2. reflexivity.
Qed.

Lemma parse_equation_whole (s : string) :
  has_equals s = false -> parse_equation s = parse_expr (replace_caret s).
Proof.
  intros H. unfold parse_equation. rewrite has_equals_replace_caret, H. reflexivity.
Qed.
(** ** Shape of the result of [solve_equation] *)

Ltac case_outcome m :=
  let E := fresh "E" in destruct m eqn:E; cbn [bind]; try discriminate.

(** The evaluation path: when the target variable does not occur in
    the parsed expression, the result is the marker ["EVAL"] and the
    simplified expression, whatever else the expression contains and
    whether or not the input had an [=]. *)
Lemma solve_equation_eval_path (s v : string) (e : Expr) (x : ascii) :
  parse_equation s = Ok e ->
  symbols v = Ok x ->
  has_symbol x e = false ->
  solve_equation s v = (result <- simplify e ;; Ok [Str "EVAL"; Val result]).
Proof.
  intros Hp Hs Hx. unfold solve_equation. rewrite Hp. cbn [bind].
  rewrite Hs. cbn [bind]. rewrite Hx. reflexivity.
Qed.

(** The empty list is returned exactly on the solving path, when the
    solver finds no root and the simplified expression is not [0]. *)
Lemma solve_equation_empty (s v : string) :
  solve_equation s v = Ok [] <->
  exists e x r,
    parse_equation s = Ok e /\ symbols v = Ok x /\
    has_symbol x e = true /\ Sympy.solve e x = Ok [] /\
    simplify e = Ok r /\ eqb r zero = false.
Proof.
  unfold solve_equation. split.
  - case_outcome (parse_equation s). case_outcome (symbols v).
    destruct (has_symbol a0 a) eqn:Hx; cbn [negb].
    + case_outcome (Sympy.solve a a0). destruct a1 as [|r1 rs].
      * case_outcome (simplify a). destruct (eqb a1 zero) eqn:Hz; try discriminate.
        intros _. exists a, a0, a1. repeat split; assumption.
      * cbn [map]. discriminate.
    + case_outcome (simplify a).
  - intros (e & x & r & Hp & Hs & Hx & Hsol & Hsim & Hz).
    rewrite Hp. cbn [bind]. rewrite Hs. cbn [bind]. rewrite Hx. cbn [negb].
    rewrite Hsol. cbn [bind]. rewrite Hsim. cbn [bind]. rewrite Hz. reflexivity.
Qed.

(** [[S.Reals]] is returned exactly on the solving path, when the
    solver finds no root and the simplified expression is [0]. *)
Lemma solve_equation_reals (s v : string) :
  solve_equation s v = Ok [Reals] <->
  exists e x r,
    parse_equation s = Ok e /\ symbols v = Ok x /\
    has_symbol x e = true /\ Sympy.solve e x = Ok [] /\
    simplify e = Ok r /\ eqb r zero = true.
Proof.
  unfold solve_equation. split.
  - case_outcome (parse_equation s). case_outcome (symbols v).
    destruct (has_symbol a0 a) eqn:Hx; cbn [negb].
    + case_outcome (Sympy.solve a a0). destruct a1 as [|r1 rs].
      * case_outcome (simplify a). destruct (eqb a1 zero) eqn:Hz; try discriminate.
        intros _. exists a, a0, a1. repeat split; assumption.
      * cbn [map]. discriminate.
    + case_outcome (simplify a).
  - intros (e & x & r & Hp & Hs & Hx & Hsol & Hsim & Hz).
    rewrite Hp. cbn [bind]. rewrite Hs. cbn [bind]. rewrite Hx. cbn [negb].
    rewrite Hsol. cbn [bind]. rewrite Hsim. cbn [bind]. rewrite Hz. reflexivity.
Qed.

(** ** Contradictions and identities (claims C1 and C2) *)

(** C1, as stated, fails: ["x - x = 5"] is not classified as having
    no solution and is not rendered as ["No solution exists"]. *)
Lemma x_minus_x_eq_5_not_empty :
  ~ (solve_equation "x - x = 5" "x" = Ok []
     /\ render "x - x = 5" "x" = Ok "No solution exists").
Proof.
  intros [H _]. vm_compute in H. discriminate.
Qed.

(** C1, amended: ["x - x = 5"] parses to the number [-5], in which
    [x] no longer occurs, so it is evaluated and rendered as ["-5"];
    in general the empty solution list is returned exactly for an
    expression that contains the target variable, has no root and
    does not simplify to [0]. *)
Theorem contradiction_classification :
  parse_equation "x - x = 5" = Ok (Integer (-5))
  /\ solve_equation "x - x = 5" "x" = Ok [Str "EVAL"; Val (Integer (-5))]
  /\ render "x - x = 5" "x" = Ok "-5"
  /\ render "(x+1)^2 = x^2 + 2x + 2" "x" = Ok "No solution exists"
  /\ forall s v,
       solve_equation s v = Ok [] <->
       exists e x r,
         parse_equation s = Ok e /\ symbols v = Ok x /\
         has_symbol x e = true /\ Sympy.solve e x = Ok [] /\
         simplify e = Ok r /\ eqb r zero = false.
Proof.
  split; [vm_compute; reflexivity|].
  split; [vm_compute; reflexivity|].
  split; [vm_compute; reflexivity|].
  split; [vm_compute; reflexivity|].
  exact solve_equation_empty.
Qed.

(** C2, as stated, fails: ["x - x = 0"] is not classified as an
    identity and is not rendered as ["x can be any real number"]. *)
Lemma x_minus_x_eq_0_not_reals :
  ~ (solve_equation "x - x = 0" "x" = Ok [Reals]
     /\ render "x - x = 0" "x" = Ok "x can be any real number").
Proof.
  intros [H _]. vm_compute in H. discriminate.
Qed.

(** C2, amended: ["x - x = 0"] parses to the number [0], in which [x]
    no longer occurs, so it is evaluated and rendered as ["0"]; in
    general [[S.Reals]] is returned exactly for an expression that
    contains the target variable, has no root and simplifies to [0],
    as ["(x+1)^2 = x^2 + 2x + 1"] does. *)
Theorem identity_classification :
  parse_equation "x - x = 0" = Ok (Integer 0)
  /\ solve_equation "x - x = 0" "x" = Ok [Str "EVAL"; Val (Integer 0)]
  /\ render "x - x = 0" "x" = Ok "0"
  /\ render "(x+1)^2 = x^2 + 2x + 1" "x" = Ok "x can be any real number"
  /\ forall s v,
       solve_equation s v = Ok [Reals] <->
       exists e x r,
         parse_equation s = Ok e /\ symbols v = Ok x /\
         has_symbol x e = true /\ Sympy.solve e x = Ok [] /\
         simplify e = Ok r /\ eqb r zero = true.
Proof.
  split; [vm_compute; reflexivity|].
  split; [vm_compute; reflexivity|].
  split; [vm_compute; reflexivity|].
  split; [vm_compute; reflexivity|].
  exact solve_equation_reals.
Qed.
(** ** Formatting of root lists (claims C3 and C4) *)

Lemma format_roots_Val (roots : list Expr) (strs : list string) :
  Forall2 (fun r s => str r = Ok s) roots strs ->
  format_roots (map Val roots) = Ok (map root_text strs).
Proof.
  induction 1 as [|r s roots strs Hr _ IH]; [reflexivity|].
  cbn [map format_roots]. unfold format_root. cbn [item_str].
  rewrite Hr. cbn [bind]. rewrite IH. reflexivity.
Qed.

Lemma eval_result_Val (roots : list Expr) : eval_result (map Val roots) = None.
Proof.
  destruct roots as [|a [|b [|c l]]]; reflexivity.
Qed.

Lemma no_Reals_Val (roots : list Expr) : existsb is_Reals (map Val roots) = false.
Proof.
  induction roots; [reflexivity|]. cbn. assumption.
Qed.

(** A non-empty list of roots is rendered root by root, in the order
    of the list, each as ["x = <root>"], joined by [" or "]. *)
Lemma format_solutions_roots (roots : list Expr) (strs : list string) :
  roots <> [] ->
  Forall2 (fun r s => str r = Ok s) roots strs ->
  format_solutions (map Val roots) = Ok (join " or " (map root_text strs)).
Proof.
  intros Hne H. unfold format_solutions.
  destruct (map Val roots) as [|i l] eqn:E.
  - destruct roots; [congruence|discriminate].
  - rewrite <- E, eval_result_Val, no_Reals_Val, (format_roots_Val _ _ H).
    reflexivity.
Qed.

(** C4, as stated, fails: solving for [y] still prints [x]. *)
Lemma variable_name_not_substituted :
  render "y^2 - 4 = 0" "y" <> Ok "y = -2 or y = 2"
  /\ render "(y+1)^2 = y^2 + 2y + 1" "y" <> Ok "y can be any real number".
Proof.
  split; vm_compute; discriminate.
Qed.

(** C4, amended: the formatter never sees the variable name; an
    identity renders as ["x can be any real number"] and each root as
    ["x = <root>"] whatever variable was solved for, which is the
    solved-for name only when that name is [x], the one name the
    route passes. *)
Theorem format_uses_literal_x :
  render "y^2 - 4 = 0" "y" = Ok "x = -2 or x = 2"
  /\ render "(y+1)^2 = y^2 + 2y + 1" "y" = Ok "x can be any real number"
  /\ format_solutions [Reals] = Ok "x can be any real number"
  /\ forall roots strs,
       roots <> [] ->
       Forall2 (fun r s => str r = Ok s) roots strs ->
       format_solutions (map Val roots)
       = Ok (join " or " (map (fun s => "x = " ++ replace_I s) strs)).
Proof.
  split; [vm_compute; reflexivity|].
  split; [vm_compute; reflexivity|].
  split; [reflexivity|].
  exact format_solutions_roots.
Qed.

Lemma format_uses_literal_x_witness :
  format_solutions (map Val [Integer (-2); Integer 2]) = Ok "x = -2 or x = 2".
Proof.
  apply (proj2 (proj2 (proj2 format_uses_literal_x))
           [Integer (-2); Integer 2] ["-2"; "2"]).
  - discriminate.
  - repeat constructor.
Defined.

(** ** Errors at the boundary (claim C7) *)

(** C7 on the code: the text after the first [=] of ["x = 1 = 2"]
    still holds an [=]; [parse_expr] raises [SyntaxError] on it, which
    is none of [SympifyError], [ValueError], [TypeError], so the route
    answers with status 500 and the "failed to solve" message instead
    of status 400 and the "invalid syntax" message. *)
Theorem double_equals_reported_as_unsolved :
  parse_equation "x = 1 = 2" = Raise SyntaxError
  /\ invalid_input SyntaxError = false
  /\ App.solve (Some "x = 1 = 2")
     = Ok (Error "Failed to solve equation. Please try a simpler form.", 500).
Proof.
  split; [vm_compute; reflexivity|].
  split; [reflexivity|].
  vm_compute; reflexivity.
Qed.

(** ** Integer rendering (claims C8 and C10) *)

(** C8 on the code: ["2 + 2"] renders as ["4"], but the integer
    [2**53 + 1] is rendered through [float] as [2**53]. *)
Theorem large_integer_loses_digits :
  render "2 + 2" "x" = Ok "4"
  /\ parse_equation "9007199254740993" = Ok (Integer 9007199254740993)
  /\ render "9007199254740993" "x" = Ok "9007199254740992"
  /\ App.solve (Some "9007199254740993") = Ok (Result "9007199254740992", 200).
Proof.
  split; [vm_compute; reflexivity|].
  split; [vm_compute; reflexivity|].
  split; vm_compute; reflexivity.
Qed.

(** C10 on the code: ["y + 1 = 2"] solved for [x] takes the
    evaluation path and renders as ["y - 1"], but the variable-free
    input ["2^1024"] takes the same path and the formatter raises
    [OverflowError], which its [except (ValueError, TypeError)] does
    not catch. *)
Theorem evaluation_path_overflow :
  render "y + 1 = 2" "x" = Ok "y - 1"
  /\ solve_equation "2^1024" "x" = Ok [Str "EVAL"; Val (Integer (2 ^ 1024))]
  /\ render "2^1024" "x" = Raise OverflowError
  /\ App.solve (Some "2^1024")
     = Ok (Error "Failed to solve equation. Please try a simpler form.", 500).
Proof.
  split; [vm_compute; reflexivity|].
  split; [vm_compute; reflexivity|].
  split; vm_compute; reflexivity.
Qed.

(** ** Implicit multiplication (claim C6) *)

(** SymPy's cases are those of two adjacent operands. *)
Lemma multiplied_operands (t u : token) :
  multiplied t u = ends_operand t && starts_operand u.
Proof. destruct t, u; reflexivity. Qed.

Lemma implicit_multiplication_explicit (ts : list token) :
  implicit_multiplication ts = explicit_operator_form ts.
Proof.
  induction ts as [|t r IH]; [reflexivity|].
  destruct r as [|u r]; [reflexivity|].
  cbn [implicit_multiplication explicit_operator_form] in IH |- *.
  rewrite multiplied_operands, IH. reflexivity.
Qed.

Lemma explicit_operator_form_cons (t u : token) (r : list token) :
  explicit_operator_form (t :: u :: r)
  = if ends_operand t && starts_operand u
    then t :: OP_STAR :: explicit_operator_form (u :: r)
    else t :: explicit_operator_form (u :: r).
Proof. reflexivity. Qed.

Lemma explicit_operator_form_head (u : token) (r : list token) :
  exists l, explicit_operator_form (u :: r) = u :: l.
Proof.
  destruct r as [|w r]; [exists []; reflexivity|].
  rewrite explicit_operator_form_cons.
  destruct (ends_operand u && starts_operand w); eexists; reflexivity.
Qed.

(** Wherever an operand end meets an operand start, a [*] is put
    between them. *)
Lemma explicit_operator_form_inserts (pre post : list token) (t u : token) :
  ends_operand t = true ->
  starts_operand u = true ->
  (explicit_operator_form (pre ++ t :: u :: post)
   = explicit_operator_form (pre ++ [t]) ++ OP_STAR :: explicit_operator_form (u :: post))%list.
Proof.
  intros Ht Hu. induction pre as [|a pre IH].
  - cbn [app]. rewrite explicit_operator_form_cons, Ht, Hu. reflexivity.
  - destruct pre as [|b pre].
    + cbn [app] in *. rewrite (explicit_operator_form_cons a t (u :: post)).
      rewrite (explicit_operator_form_cons a t []). rewrite IH.
      destruct (ends_operand a && starts_operand t); reflexivity.
    + cbn [app] in *.
      rewrite (explicit_operator_form_cons a b (pre ++ t :: u :: post)).
      rewrite (explicit_operator_form_cons a b (pre ++ [t])). rewrite IH.
      destruct (ends_operand a && starts_operand b); reflexivity.
Qed.

(** A token list in which every multiplication is explicit is left
    as it is. *)
Lemma explicit_operator_form_idempotent (ts : list token) :
  explicit_operator_form (explicit_operator_form ts) = explicit_operator_form ts.
Proof.
  induction ts as [|t r IH]; [reflexivity|].
  destruct r as [|u r]; [reflexivity|].
  rewrite explicit_operator_form_cons.
  destruct (explicit_operator_form_head u r) as (l & Hl).
  destruct (ends_operand t && starts_operand u) eqn:E.
  - rewrite Hl in IH |- *.
    rewrite (explicit_operator_form_cons t OP_STAR (u :: l)).
    cbn [starts_operand]. rewrite andb_false_r.
    rewrite (explicit_operator_form_cons OP_STAR u l). cbn [ends_operand andb].
    rewrite IH. reflexivity.
  - rewrite Hl in IH |- *. rewrite explicit_operator_form_cons, E, IH. reflexivity.
Qed.

(** The inserted [*] change nothing to the nesting of the
    parentheses. *)
Lemma well_nested_explicit (ts : list token) :
  forall depth, well_nested depth (explicit_operator_form ts) = well_nested depth ts.
Proof.
  induction ts as [|t r IH]; [reflexivity|]. intros depth.
  destruct r as [|u r]; [reflexivity|].
  rewrite explicit_operator_form_cons.
  destruct (explicit_operator_form_head u r) as (l & Hl).
  rewrite Hl in IH |- *.
  destruct t, u; cbn [ends_operand starts_operand andb];
    solve [ reflexivity
          | exact (IH depth)
          | exact (IH (S depth))
          | destruct depth as [|d]; [reflexivity|exact (IH d)] ].
Qed.

(** An input and its explicit-operator form are turned into the same
    token list. *)
Lemma stringify_explicit (s s' : string) (ts : list token) :
  tokens_of s = Ok ts ->
  tokens_of s' = Ok (explicit_operator_form ts) ->
  stringify_expr (strip (replace_caret s')) = stringify_expr (strip (replace_caret s)).
Proof.
  unfold tokens_of, stringify_expr. rewrite !strip_idempotent.
  intros -> ->. cbn [bind].
  rewrite well_nested_explicit, !implicit_multiplication_explicit,
    explicit_operator_form_idempotent. reflexivity.
Qed.

Lemma stringify_strip (s : string) : stringify_expr (strip s) = stringify_expr s.
Proof. unfold stringify_expr. rewrite strip_idempotent. reflexivity. Qed.

Lemma parse_expr_strip (s : string) : parse_expr (strip s) = parse_expr s.
Proof. unfold parse_expr. rewrite stringify_strip. reflexivity. Qed.

(** C6: juxtaposed operands are multiplied.  ["2x"], ["(x+1)(x-1)"],
    ["3(x+2)"] and ["x(x+1)"] are parsed by [parse_equation] into the
    expression, and by Python into the syntax tree, of their
    explicit forms.  In general the transformation writes a [*]
    between two adjacent tokens exactly when the first ends an
    operand and the second starts one, and an input is parsed as
    its explicit-operator form is, alone or as a side of an
    equation. *)
Theorem implicit_multiplication_inserted :
  (parse_equation "2x" = Ok (Mul [Integer 2; Symbol "x"])
   /\ parse_equation "2x" = parse_equation "2*x"
   /\ syntax_tree "2x" = Ok (ABin BMult (ANum 2) (AName "x"))
   /\ syntax_tree "2x" = syntax_tree "2*x")
  /\ (parse_equation "(x+1)(x-1)"
      = Ok (Mul [Add [Integer (-1); Symbol "x"]; Add [Integer 1; Symbol "x"]])
      /\ parse_equation "(x+1)(x-1)" = parse_equation "(x+1)*(x-1)"
      /\ syntax_tree "(x+1)(x-1)"
         = Ok (ABin BMult (ABin BAdd (AName "x") (ANum 1)) (ABin BSub (AName "x") (ANum 1)))
      /\ syntax_tree "(x+1)(x-1)" = syntax_tree "(x+1)*(x-1)")
  /\ (parse_equation "3(x+2)" = Ok (Add [Integer 6; Mul [Integer 3; Symbol "x"]])
      /\ parse_equation "3(x+2)" = parse_equation "3*(x+2)"
      /\ syntax_tree "3(x+2)" = Ok (ABin BMult (ANum 3) (ABin BAdd (AName "x") (ANum 2)))
      /\ syntax_tree "3(x+2)" = syntax_tree "3*(x+2)")
  /\ (parse_equation "x(x+1)" = Ok (Mul [Symbol "x"; Add [Integer 1; Symbol "x"]])
      /\ parse_equation "x(x+1)" = parse_equation "x*(x+1)"
      /\ syntax_tree "x(x+1)" = syntax_tree "x*(x+1)")
  /\ (forall ts, implicit_multiplication ts = explicit_operator_form ts)
  /\ (forall pre post t u,
        ends_operand t = true ->
        starts_operand u = true ->
        (implicit_multiplication (pre ++ t :: u :: post)
         = implicit_multiplication (pre ++ [t])
           ++ OP_STAR :: implicit_multiplication (u :: post))%list)
  /\ (forall s s' ts,
        has_equals s = false ->
        has_equals s' = false ->
        tokens_of s = Ok ts ->
        tokens_of s' = Ok (explicit_operator_form ts) ->
        parse_equation s = parse_equation s')
  /\ (forall l r l' r' tl tr,
        has_equals l = false ->
        has_equals l' = false ->
        tokens_of l = Ok tl ->
        tokens_of l' = Ok (explicit_operator_form tl) ->
        tokens_of r = Ok tr ->
        tokens_of r' = Ok (explicit_operator_form tr) ->
        parse_equation (l ++ "=" ++ r) = parse_equation (l' ++ "=" ++ r')).
Proof.
  split; [repeat split; vm_compute; reflexivity|].
  split; [repeat split; vm_compute; reflexivity|].
  split; [repeat split; vm_compute; reflexivity|].
  split; [repeat split; vm_compute; reflexivity|].
  split; [exact implicit_multiplication_explicit|].
  split.
  { intros pre post t u Ht Hu. rewrite !implicit_multiplication_explicit.
    apply explicit_operator_form_inserts; assumption. }
  split.
  - intros s s' ts Hs Hs' Ht Ht'.
    rewrite (parse_equation_whole s Hs), (parse_equation_whole s' Hs').
    rewrite <- (parse_expr_strip (replace_caret s)), <- (parse_expr_strip (replace_caret s')).
    unfold parse_expr. rewrite (stringify_explicit s s' ts Ht Ht'). reflexivity.
  - intros l r l' r' tl tr Hl Hl' Htl Htl' Htr Htr'.
    rewrite (parse_equation_sides l r Hl), (parse_equation_sides l' r' Hl').
    unfold parse_expr.
    rewrite (stringify_explicit l l' tl Htl Htl'), (stringify_explicit r r' tr Htr Htr').
    reflexivity.
Qed.

Lemma implicit_multiplication_inserted_witness :
  parse_equation "2(x+1)y" = parse_equation "2*(x+1)*y".
Proof.
  apply (proj1 (proj2 (proj2 (proj2 (proj2 (proj2 (proj2 implicit_multiplication_inserted))))))
           "2(x+1)y" "2*(x+1)*y" [NUMBER 2; LPAR; NAME "x"; OP_PLUS; NUMBER 1; RPAR; NAME "y"]);
    reflexivity.
Defined.
(** ** Rational arithmetic *)

Lemma Qeqb_true (a b : Q) : Qeqb a b = true <-> (a == b)%Q.
Proof. apply Qeq_bool_iff. Qed.



(** ** Sums and products of the shape [k + c*x] *)




Lemma add_term_one_X (n c : Q) (t : list (Expr * Q)) :
  add_term one n ((X, c) :: t) = (one, n) :: (X, c) :: t.
Proof. reflexivity. Qed.

Lemma add_term_X_nil (c : Q) : add_term X c [] = [(X, c)].
Proof. reflexivity. Qed.

Lemma add_term_X_one (c k : Q) : add_term X c [(one, k)] = [(one, k); (X, c)].
Proof. reflexivity. Qed.




Lemma add_term_I_one (c k : Q) :
  add_term ImaginaryUnit c [(one, k)] = [(one, k); (ImaginaryUnit, c)].
Proof. reflexivity. Qed.

Lemma term_I (c : Q) :
  term ImaginaryUnit c = if Qeqb c 1 then ImaginaryUnit else Mul [Number c; ImaginaryUnit].
Proof. reflexivity. Qed.

Opaque Qred Qmult Qplus Qopp Qdiv Qinv Qeq_bool Qcompare Qle_bool.






Lemma Lin_compat (k k' c : Q) : Qeqb k 0 = true -> Qeqb k' 0 = true -> Lin k c = Lin k' c.
Proof.
  intros H H'. unfold Lin, rebuild_terms. cbn [filter snd fst]. rewrite H, H'. reflexivity.
Qed.

















Transparent Qred Qmult Qplus Qopp Qdiv Qinv Qeq_bool Qcompare Qle_bool.

(** ** Order of the roots (claim C3) *)

(** C3, as stated, fails: the roots of ["x^2 - 4 = 0"] and of
    ["x^2 + 1 = 0"] do not come larger (or non-negative imaginary)
    first. *)
Lemma larger_root_not_first :
  render "x^2 - 4 = 0" "x" <> Ok "x = 2 or x = -2"
  /\ render "x^2 + 1 = 0" "x" <> Ok "x = i or x = -i".
Proof.
  split; vm_compute; discriminate.
Qed.

(** A non-empty list of roots is returned as the solver gives it. *)
Lemma solve_equation_roots (s v : string) (e : Expr) (x : ascii) (r : Expr) (rs : list Expr) :
  parse_equation s = Ok e ->
  symbols v = Ok x ->
  has_symbol x e = true ->
  Sympy.solve e x = Ok (r :: rs) ->
  solve_equation s v = Ok (map Val (r :: rs)).
Proof.
  intros Hp Hv Hx Hs. unfold solve_equation.
  rewrite Hp. cbn [bind]. rewrite Hv. cbn [bind]. rewrite Hx. cbn [negb].
  rewrite Hs. reflexivity.
Qed.

(** C3, amended: the code puts the roots in no order of its own.
    [solve_equation] returns the solver's list as it is and
    [format_solutions] prints it from first to last, so the text
    lists the roots in the solver's order; for ["x^2 - 4 = 0"] that
    is ["x = -2 or x = 2"] and for ["x^2 + 1 = 0"] it is
    ["x = -i or x = i"]. *)
Theorem roots_in_solver_order :
  render "x^2 - 4 = 0" "x" = Ok "x = -2 or x = 2"
  /\ render "x^2 + 1 = 0" "x" = Ok "x = -i or x = i"
  /\ (forall s v e x r rs,
        parse_equation s = Ok e ->
        symbols v = Ok x ->
        has_symbol x e = true ->
        Sympy.solve e x = Ok (r :: rs) ->
        solve_equation s v = Ok (map Val (r :: rs)))
  /\ (forall s v e x r rs strs,
        parse_equation s = Ok e ->
        symbols v = Ok x ->
        has_symbol x e = true ->
        Sympy.solve e x = Ok (r :: rs) ->
        Forall2 (fun r s => str r = Ok s) (r :: rs) strs ->
        render s v = Ok (join " or " (map root_text strs))).
Proof.
  split; [vm_compute; reflexivity|].
  split; [vm_compute; reflexivity|].
  split; [exact solve_equation_roots|].
  intros s v e x r rs strs Hp Hv Hx Hs Hstr. unfold render.
  rewrite (solve_equation_roots s v e x r rs Hp Hv Hx Hs). cbn [bind].
  apply format_solutions_roots; [discriminate|exact Hstr].
Qed.

Lemma roots_in_solver_order_witness :
  render "x^2 - 4 = 0" "x" = Ok (join " or " (map root_text ["-2"; "2"])).
Proof.
  apply (proj2 (proj2 (proj2 roots_in_solver_order))
           "x^2 - 4 = 0" "x" (Add [Integer (-4); Pow (Symbol "x") 2]) "x"%char
           (Integer (-2)) [Integer 2]).
  - vm_compute. reflexivity.
  - reflexivity.
  - reflexivity.
  - vm_compute. reflexivity.
  - repeat constructor.
Defined.

(** ** Linear equations (claim C5) *)

Lemma Qred_integer (n : Z) : Qred (n # 1) = n # 1.
Proof.
  apply Qcanon.Qred_identity. cbn [Qnum Qden]. apply Z.gcd_1_r.
Qed.

(** ** Characters of the printed numbers *)

Lemma string_of_uint_chars (d : Decimal.uint) : numeral_chars (NilEmpty.string_of_uint d) = true.
Proof.
  induction d; cbn [NilEmpty.string_of_uint numeral_chars]; try rewrite IHd; reflexivity.
Qed.

Lemma str_Z_chars (n : Z) : numeral_chars (str_Z n) = true.
Proof.
  unfold str_Z, NilZero.string_of_int, NilZero.string_of_uint.
  destruct (Z.to_int n) as [d|d]; destruct d;
    try reflexivity;
    cbn [numeral_chars NilEmpty.string_of_uint];
    rewrite ?string_of_uint_chars; reflexivity.
Qed.

Lemma str_Z_head (n : Z) :
  exists c r, str_Z n = String c r /\ sign_or_digit c = true.
Proof.
  unfold str_Z, NilZero.string_of_int, NilZero.string_of_uint.
  destruct (Z.to_int n) as [d|d]; destruct d; cbn [NilEmpty.string_of_uint];
    eexists _, _; split; reflexivity.
Qed.








(** ** Decimal literals *)









Lemma string_of_uint_length (d : Decimal.uint) :
  String.length (NilEmpty.string_of_uint d) = Decimal.nb_digits d.
Proof. induction d; cbn [NilEmpty.string_of_uint String.length Decimal.nb_digits]; congruence. Qed.



(** ** The tokenizer's fuel *)


(** ** The tokens of [a*x + b = c] *)











(** ** Parsing [a*x + b = c] *)










(** ** The root of [a*x + b = c] *)




Lemma sign_or_digit_not_I (c : ascii) : sign_or_digit c = true -> Ascii.eqb c "I" = false.
Proof.
  destruct c as [[] [] [] [] [] [] [] []]; cbn; intros H; try reflexivity; discriminate.
Qed.






(** * Further properties of the application *)

(** ** The [/solve] route *)

Lemma solve_unfold (arg : option string) :
  App.solve arg =
  let equation := stripped_equation arg in
  if String.eqb equation "" then Ok missing
  else if (500 <? String.length equation)%nat then
         if is_ascii equation then Ok too_long else Beyond
  else match render equation "x" with
       | Ok t => Ok (Result t, 200%Z)
       | Raise e => if invalid_input e then Ok invalid else Ok failed
       | Beyond => Beyond
       end.
Proof. reflexivity. Qed.

Lemma is_ascii_lstrip (s : string) : is_ascii s = true -> is_ascii (lstrip s) = true.
Proof.
  induction s as [|c r IH]; [reflexivity|]. cbn [lstrip]. destruct (is_space c); [|auto].
  cbn [is_ascii]. intros H. apply andb_prop in H. apply IH, H.
Qed.

Lemma is_ascii_rstrip (s : string) : is_ascii s = true -> is_ascii (rstrip s) = true.
Proof.
  induction s as [|c r IH]; [reflexivity|]. cbn [is_ascii]. intros H.
  apply andb_prop in H. destruct H as [Hc Hr]. specialize (IH Hr). cbn [rstrip].
  destruct (rstrip r) as [|d r'].
  - destruct (is_space c); [reflexivity|]. cbn [is_ascii]. rewrite Hc. reflexivity.
  - cbn [is_ascii] in IH |- *. rewrite Hc, IH. reflexivity.
Qed.

Lemma is_ascii_stripped (arg : option string) :
  is_ascii (match arg with Some s => s | None => "" end) = true ->
  is_ascii (stripped_equation arg) = true.
Proof.
  intros H. unfold stripped_equation, strip. apply is_ascii_rstrip, is_ascii_lstrip, H.
Qed.

(** For a parameter of ASCII characters, the route answers "missing
    parameter" exactly when the parameter is absent or holds nothing
    but white space. *)
Theorem route_missing (arg : option string) :
  is_ascii (match arg with Some s => s | None => "" end) = true ->
  (App.solve arg = Ok missing <->
   match arg with
   | None => True
   | Some s => all_spaces s = true
   end).
Proof.
  intros _. rewrite solve_unfold. cbv zeta.
  assert (H : stripped_equation arg = "" <->
              match arg with None => True | Some s => all_spaces s = true end).
  { unfold stripped_equation. destruct arg as [s|]; [apply strip_empty|].
    split; [intros _; exact I|reflexivity]. }
  rewrite <- H. destruct (String.eqb_spec (stripped_equation arg) "") as [E|E].
  - tauto.
  - split; [|contradiction].
    destruct (500 <? _)%nat; [destruct (is_ascii _); discriminate|].
    destruct (render _ _) as [t|e|]; try discriminate.
    destruct (invalid_input e); discriminate.
Qed.

Lemma route_missing_witness : App.solve (Some "   ") = Ok missing.
Proof.
  apply (proj2 (route_missing (Some "   ") eq_refl)). reflexivity.
Defined.

(** For a parameter of ASCII characters, the route answers "too
    long" exactly when the stripped equation has more than 500
    characters; 500 characters are accepted. *)
Theorem route_too_long (arg : option string) :
  is_ascii (match arg with Some s => s | None => "" end) = true ->
  (App.solve arg = Ok too_long <->
   (500 < String.length (stripped_equation arg))%nat).
Proof.
  intros Ha. apply is_ascii_stripped in Ha. rewrite solve_unfold. cbv zeta. rewrite Ha.
  destruct (String.eqb_spec (stripped_equation arg) "") as [E|E].
  - rewrite E. cbn. split; [discriminate|lia].
  - destruct (Nat.ltb_spec 500 (String.length (stripped_equation arg))).
    + tauto.
    + split; [|lia]. destruct (render _ _) as [t|e|]; try discriminate.
      destruct (invalid_input e); discriminate.
Qed.

Lemma route_too_long_witness :
  App.solve (Some (string_of_list_ascii (repeat "1"%char 501))) = Ok too_long.
Proof.
  apply (proj2 (route_too_long (Some (string_of_list_ascii (repeat "1"%char 501)))
                  ltac:(vm_compute; reflexivity))).
  vm_compute. lia.
Defined.



(** White space before and after the equation does not change the
    answer. *)
Theorem route_strip (s : string) : App.solve (Some (strip s)) = App.solve (Some s).
Proof.
  rewrite !solve_unfold. unfold stripped_equation. rewrite strip_idempotent. reflexivity.
Qed.

(** ** The text handed to the parser by [parse_equation] *)

(** [^] and [**] are interchangeable in the input. *)
Theorem caret_is_power (s : string) :
  parse_equation (replace_caret s) = parse_equation s.
Proof.
  unfold parse_equation. rewrite replace_caret_idempotent. reflexivity.
Qed.

(** An input with an [=] is cut at its first [=]: what stands before
    is the left side, everything after it, later [=] included, is the
    right side, and the result is left minus right; an input without
    [=] is parsed as one expression. *)
Theorem equation_split_at_first_equals :
  (forall l r,
      has_equals l = false ->
      parse_equation (l ++ "=" ++ r)
      = (left_expr <- parse_expr (strip (replace_caret l)) ;;
         right_expr <- parse_expr (strip (replace_caret r)) ;;
         sub left_expr right_expr))
  /\ (forall s,
        has_equals s = true ->
        exists l r, s = l ++ "=" ++ r /\ has_equals l = false)
  /\ (forall s,
        has_equals s = false ->
        parse_equation s = parse_expr (replace_caret s)).
Proof.
  split; [|split].
  - intros l r Hl. unfold parse_equation.
    rewrite replace_caret_app. change (replace_caret ("=" ++ r)) with ("=" ++ replace_caret r).
    assert (Hl' : has_equals (replace_caret l) = false)
      by (rewrite has_equals_replace_caret; exact Hl).
    destruct (split_equals_first (replace_caret l) (replace_caret r) Hl') as [H1 H2].
    rewrite H1, H2. reflexivity.
  - intros s H. destruct (split_equals_join s H) as [H1 H2]. eauto.
  - intros s H. unfold parse_equation. rewrite has_equals_replace_caret, H. reflexivity.
Qed.

Lemma equation_split_at_first_equals_witness :
  parse_equation ("2x " ++ "=" ++ " 6 = 7")
  = (left_expr <- parse_expr (strip (replace_caret "2x ")) ;;
     right_expr <- parse_expr (strip (replace_caret " 6 = 7")) ;;
     sub left_expr right_expr).
Proof.
  apply (proj1 equation_split_at_first_equals). reflexivity.
Defined.

(** White space around the left side and around the right side of an
    equation does not change what [parse_equation] returns. *)
Theorem side_whitespace_ignored (l r : string) :
  has_equals l = false ->
  parse_equation (strip l ++ "=" ++ strip r) = parse_equation (l ++ "=" ++ r).
Proof.
  intros Hl.
  assert (Hl' : has_equals (strip l) = false)
    by (unfold strip; apply has_equals_rstrip, has_equals_lstrip, Hl).
  rewrite (parse_equation_sides l r Hl), (parse_equation_sides (strip l) (strip r) Hl').
  rewrite !replace_caret_strip, !strip_idempotent. reflexivity.
Qed.

Lemma side_whitespace_ignored_witness :
  parse_equation (strip " 2x " ++ "=" ++ strip "  6 ") = parse_equation (" 2x " ++ "=" ++ "  6 ").
Proof.
  apply side_whitespace_ignored. reflexivity.
Defined.

(** ** An equation without a left side *)

(** An equation whose first character, white space apart, is [=]
    has an empty left side; parsing it raises [SyntaxError], which
    the route answers with status 500. *)
Theorem empty_left_side_fails (s r : string) :
  lstrip s = String "=" r ->
  (String.length (strip s) <= 500)%nat ->
  App.solve (Some s) = Ok failed.
Proof.
  intros Hl Hlen. rewrite solve_unfold. unfold stripped_equation. cbv zeta.
  assert (Hs : exists r', strip s = String "=" r').
  { unfold strip. rewrite Hl. apply rstrip_head. reflexivity. }
  destruct Hs as (r' & Hs). rewrite Hs in Hlen |- *.
  change (String.eqb (String "=" r') "") with false. cbv iota.
  replace (500 <? String.length (String "=" r'))%nat with false
    by (symmetry; apply Nat.ltb_ge; exact Hlen).
  assert (Hr : render (String "=" r') "x" = Raise SyntaxError).
  { unfold render, solve_equation, parse_equation.
    change (replace_caret (String "=" r')) with (String "=" (replace_caret r')).
    change (has_equals (String "=" (replace_caret r'))) with true. cbv iota.
    change (split_equals (String "=" (replace_caret r'))) with ("", replace_caret r').
    cbn [fst]. change (parse_expr (strip "")) with (@Raise Expr SyntaxError).
    reflexivity. }
  rewrite Hr. reflexivity.
Qed.

Lemma empty_left_side_fails_witness : App.solve (Some " = 3") = Ok failed.
Proof.
  apply (empty_left_side_fails " = 3" " 3"); [reflexivity|vm_compute; lia].
Defined.

(** ** Characters of the printed numbers *)

Lemma str_Q_head (q : Q) :
  exists c r, str_Q q = String c r /\ sign_or_digit c = true.
Proof.
  unfold str_Q. destruct (str_Z_head (Qnum q)) as (c & r & E & H). rewrite E.
  destruct (Qden q); cbn [append]; eauto.
Qed.

Lemma numeral_no_I (s : string) : numeral_chars s = true -> no_char "I" s = true.
Proof.
  induction s as [|c r IH]; [reflexivity|]. cbn [numeral_chars no_char].
  intros H. apply andb_prop in H. destruct H as [Hc Hr].
  rewrite (sign_or_digit_not_I c Hc), (IH Hr). reflexivity.
Qed.

Lemma no_char_app (a : ascii) (s t : string) :
  no_char a (s ++ t) = no_char a s && no_char a t.
Proof.
  induction s as [|c r IH]; [reflexivity|]. cbn [append no_char].
  rewrite IH, andb_assoc. reflexivity.
Qed.

Lemma replace_I_no_I (s : string) : no_char "I" (replace_I s) = true.
Proof.
  induction s as [|c r IH]; [reflexivity|]. cbn [replace_I no_char]. rewrite IH.
  destruct (Ascii.eqb_spec c "I") as [->|E]; [reflexivity|].
  apply Ascii.eqb_neq in E. rewrite E. reflexivity.
Qed.

(** ** How [str] starts *)

Lemma str_abs_term_start (c : Q) (a : ascii) :
  (exists h r, str_abs_term c (String a "") = String h r /\ sign_or_digit h = true)
  \/ str_abs_term c (String a "") = String a ""
  \/ exists r, str_abs_term c (String a "") = String a (String "/" r).
Proof.
  unfold str_abs_term. destruct (Z.abs (Qnum c) =? 1)%Z.
  - right. destruct (Qden c); cbn [append]; eauto.
  - left. destruct (str_Z_head (Z.abs (Qnum c))) as (h & r & E & H). rewrite E.
    cbn [append]. eauto.
Qed.

Lemma str_atom_char (a : Expr) (sa : string) :
  str_atom a = Some sa -> exists ch, sa = String ch "".
Proof.
  destruct a; cbn [str_atom]; intros [= <-]; eauto.
Qed.

Lemma term_alone_start (c : Q) (a : ascii) :
  printed_start (signed (is_negative c) (str_abs_term c (String a ""))).
Proof.
  destruct (is_negative c); cbn [signed]; [left; reflexivity|].
  destruct (str_abs_term_start c a) as [(h & r & -> & H)|[->|(r & ->)]].
  - left. exact H.
  - right. exact I.
  - right. left. reflexivity.
Qed.

Lemma term_joined_start (c : Q) (a : ascii) (neg : bool) (sp : string) :
  printed_start
    (join_terms (signed (is_negative c) (str_abs_term c (String a ""))) neg sp).
Proof.
  unfold join_terms. destruct (is_negative c); cbn [signed]; [left; reflexivity|].
  destruct (str_abs_term_start c a) as [(h & r & -> & H)|[->|(r & ->)]].
  - left. exact H.
  - destruct neg; cbn; right; right; (split; [reflexivity|auto]).
  - right. left. reflexivity.
Qed.

Lemma number_joined_start (neg1 neg2 : bool) (p : Q) (st : string) :
  printed_start (join_terms (signed neg1 (str_Q p)) neg2 st).
Proof.
  unfold join_terms. destruct (str_Q_head p) as (c & r & -> & H).
  destruct neg1; cbn [signed]; left; [reflexivity|exact H].
Qed.

Lemma str_text_start (e : Expr) (s : string) : str_text e = Some s -> printed_start s.
Proof.
  unfold str_text.
  assert (Hatom : forall e',
             match as_atom_term e' with
             | Some (c, a) =>
                 match str_atom a with
                 | Some sa => Some (signed (is_negative c) (str_abs_term c sa))
                 | None => None
                 end
             | None => None
             end = Some s -> printed_start s).
  { intros e'. destruct (as_atom_term e') as [[c a]|]; [|discriminate].
    destruct (str_atom a) as [sa|] eqn:Ea; [|discriminate].
    destruct (str_atom_char a sa Ea) as (ch & ->). intros [= <-]. apply term_alone_start. }
  destruct e as [q|c0| |args|args|b n].
  - intros [= <-]. destruct (str_Q_head q) as (c & r & -> & H). left. exact H.
  - exact (Hatom (Symbol c0)).
  - exact (Hatom ImaginaryUnit).
  - destruct args as [|[p| | | | |] [|t [|u l]]]; try discriminate.
    destruct (as_atom_term t) as [[c a]|]; [|discriminate].
    destruct (str_atom a) as [sa|] eqn:Ea; [|discriminate].
    destruct (str_atom_char a sa Ea) as (ch & ->).
    destruct a; try discriminate.
    + destruct (negb (is_negative p) && is_negative c); intros [= <-].
      * apply (number_joined_start false true).
      * apply term_joined_start.
    + intros [= <-]. apply number_joined_start.
  - exact (Hatom (Mul args)).
  - exact (Hatom (Pow b n)).
Qed.

(** [str] returns the printed text, or raises [ValueError] when one
    of the numbers in it has an integer of more than 4300 digits. *)
Lemma str_Ok (e : Expr) (s : string) : str e = Ok s -> str_text e = Some s.
Proof.
  unfold str. destruct (str_text e) as [t|]; [|discriminate].
  destruct (forallb printable (printed_numbers e)); [|discriminate].
  intros [= <-]. reflexivity.
Qed.

Lemma str_Raise (e : Expr) (x : exn) :
  str e = Raise x ->
  x = ValueError /\ exists q, In q (printed_numbers e) /\ printable q = false.
Proof.
  unfold str. destruct (str_text e) as [t|]; [|discriminate].
  destruct (forallb printable (printed_numbers e)) eqn:E; [discriminate|].
  intros [= <-]. split; [reflexivity|].
  induction (printed_numbers e) as [|q l IH]; [discriminate|].
  cbn [forallb] in E. destruct (printable q) eqn:Hq.
  - destruct (IH E) as (q' & Hin & Hq'). exists q'. split; [right; exact Hin|exact Hq'].
  - exists q. split; [left; reflexivity|exact Hq].
Qed.

Lemma str_start (e : Expr) (s : string) : str e = Ok s -> printed_start s.
Proof. intros H. exact (str_text_start e s (str_Ok e s H)). Qed.

(** ** The two fixed messages *)




(** What the evaluation branch returns for an expression. *)
Lemma format_eval_text (e : Expr) (out : string) :
  format_eval (Val e) = Ok out ->
  (exists n, out = str_Z n) \/ (exists s, printed_start s /\ out = replace_I s).
Proof.
  cbn [format_eval].
  destruct (try_integer e) as [[t|]| |] eqn:Et; cbn [bind]; try discriminate.
  - intros [= <-]. left. unfold try_integer in Et.
    destruct (float e) as [f|x|]; try discriminate.
    + destruct (int f) as [n|x|]; try discriminate.
      * destruct (float_eq_int f n); [|discriminate]. injection Et as <-. eauto.
      * destruct (caught x); discriminate.
    + destruct (caught x); discriminate.
  - destruct (str e) as [s| |] eqn:Es; cbn [bind]; try discriminate.
    intros [= <-]. right. exists s. split; [exact (str_start e s Es)|reflexivity].
Qed.











(** ** No capital [I] in the output *)

Lemma join_no_I (fs : list string) :
  Forall (fun f => no_char "I" f = true) fs -> no_char "I" (join " or " fs) = true.
Proof.
  induction 1 as [|f l Hf _ IH]; [reflexivity|].
  destruct l as [|g l]; [exact Hf|].
  change (join " or " (f :: g :: l)) with (f ++ " or " ++ join " or " (g :: l)).
  rewrite !no_char_app, Hf, IH. reflexivity.
Qed.

Lemma format_roots_no_I (sols : list item) :
  forall fs, format_roots sols = Ok fs -> Forall (fun f => no_char "I" f = true) fs.
Proof.
  induction sols as [|sol l IH]; cbn [format_roots].
  - intros fs [= <-]. constructor.
  - intros fs. unfold format_root.
    destruct (item_str sol) as [t| |]; cbn [bind]; try discriminate.
    destruct (format_roots l) as [gs| |]; cbn [bind]; try discriminate.
    intros [= <-]. constructor; [|apply IH; reflexivity].
    change (no_char "I" ("x = " ++ replace_I t) = true).
    rewrite no_char_app, replace_I_no_I. reflexivity.
Qed.

(** No text the formatter returns holds a capital [I]: the imaginary
    unit is always written [i]. *)
Theorem output_has_no_capital_I (sols : list item) (out : string) :
  format_solutions sols = Ok out -> no_char "I" out = true.
Proof.
  destruct sols as [|i l]; [intros [= <-]; reflexivity|]. unfold format_solutions.
  destruct (eval_result (i :: l)) as [result|].
  - destruct result as [s|e|]; cbn [format_eval].
    + destruct (not_a_float s); [|discriminate]. intros [= <-]. apply replace_I_no_I.
    + intros H. destruct (format_eval_text e out H) as [(n & ->)|(s & _ & ->)].
      * apply numeral_no_I, str_Z_chars.
      * apply replace_I_no_I.
    + intros [= <-]. reflexivity.
  - destruct (existsb is_Reals (i :: l)); [intros [= <-]; reflexivity|].
    destruct (format_roots (i :: l)) as [fs| |] eqn:E; cbn [bind]; try discriminate.
    intros [= <-]. apply join_no_I. exact (format_roots_no_I _ _ E).
Qed.

Lemma output_has_no_capital_I_witness : no_char "I" "x = -i or x = i" = true.
Proof.
  apply (output_has_no_capital_I [Val (Mul [Number (-1); ImaginaryUnit]); Val ImaginaryUnit]).
  vm_compute. reflexivity.
Defined.

(** ** Exceptions of the formatter *)

Lemma float_raise (e : Expr) (x : exn) : float e = Raise x -> x = TypeError.
Proof.
  destruct e; cbn [float]; try (intros [= <-]; reflexivity).
  unfold float_Q. destruct (Z.eqb _ _); [discriminate|]. cbv zeta.
  destruct (Z.ltb _ _); [discriminate|]. destruct (Qle_bool _ _); discriminate.
Qed.

Lemma format_eval_raise (result : Expr) (x : exn) :
  format_eval (Val result) = Raise x ->
  (x = OverflowError /\ exists negative, float result = Ok (Infinite negative))
  \/ (x = ValueError /\ exists q, In q (printed_numbers result) /\ printable q = false).
Proof.
  cbn [format_eval]. unfold try_integer.
  assert (Hstr : (s <- str result ;; Ok (replace_I s)) = Raise x ->
                 x = ValueError /\ exists q, In q (printed_numbers result) /\ printable q = false).
  { destruct (str result) as [s|y|] eqn:Es; cbn [bind]; try discriminate.
    intros [= <-]. exact (str_Raise _ _ Es). }
  destruct (float result) as [f|y|] eqn:Ef.
  - destruct f as [v|b]; cbn [int].
    + destruct (float_eq_int _ _); cbn [bind]; [discriminate|]. intros H. right. auto.
    + cbn [caught bind]. intros [= <-]. left. eauto.
  - rewrite (float_raise _ _ Ef). cbn [caught bind]. intros H. right. auto.
  - cbn [bind]. discriminate.
Qed.

Lemma format_roots_raise (roots : list Expr) (x : exn) :
  format_roots (map Val roots) = Raise x ->
  x = ValueError /\ exists r q, In r roots /\ In q (printed_numbers r) /\ printable q = false.
Proof.
  induction roots as [|r rs IH]; cbn [map format_roots]; [discriminate|].
  unfold format_root. cbn [item_str].
  destruct (str r) as [s|y|] eqn:Es; cbn [bind].
  - destruct (format_roots (map Val rs)) as [fs|y|] eqn:Ef; cbn [bind]; try discriminate.
    intros [= <-]. destruct (IH eq_refl) as (-> & r' & q & Hr & Hq).
    split; [reflexivity|]. exists r', q. split; [right; exact Hr|exact Hq].
  - intros [= <-]. destruct (str_Raise _ _ Es) as (-> & q & Hq).
    split; [reflexivity|]. exists r, q. split; [left; reflexivity|exact Hq].
  - discriminate.
Qed.

(** The exceptions of the formatter on what [solve_equation]
    returns.  On an evaluation pair it raises [OverflowError] when
    the [float] of the result is infinite, in that case always, and
    otherwise only [ValueError], when a number to print has an
    integer of more than 4300 digits; the [TypeError] of [float] on
    a result that is no real number is caught.  On a list of roots
    it raises only that [ValueError]. *)
Theorem formatter_exceptions :
  (forall result x,
      format_solutions [Str "EVAL"; Val result] = Raise x ->
      (x = OverflowError /\ exists negative, float result = Ok (Infinite negative))
      \/ (x = ValueError
          /\ exists q, In q (printed_numbers result) /\ printable q = false))
  /\ (forall result negative,
        float result = Ok (Infinite negative) ->
        format_solutions [Str "EVAL"; Val result] = Raise OverflowError)
  /\ (forall roots x,
        format_solutions (map Val roots) = Raise x ->
        x = ValueError
        /\ exists r q, In r roots /\ In q (printed_numbers r) /\ printable q = false).
Proof.
  split; [|split].
  - intros result x.
    change (format_solutions [Str "EVAL"; Val result]) with (format_eval (Val result)).
    apply format_eval_raise.
  - intros result negative H.
    change (format_solutions [Str "EVAL"; Val result]) with (format_eval (Val result)).
    cbn [format_eval]. unfold try_integer. rewrite H. reflexivity.
  - intros roots x. destruct roots as [|r rs]; [discriminate|].
    unfold format_solutions. rewrite eval_result_Val, no_Reals_Val. cbn [map].
    intros H. apply (format_roots_raise (r :: rs) x). cbn [map].
    destruct (format_roots (Val r :: map Val rs)); cbn [bind] in H; congruence.
Qed.

Lemma formatter_exceptions_witness :
  format_solutions [Str "EVAL"; Val (Integer (2 ^ 1024))] = Raise OverflowError.
Proof.
  apply (proj1 (proj2 formatter_exceptions) (Integer (2 ^ 1024)) false).
  vm_compute. reflexivity.
Defined.

(** ** Integers up to [2**53] *)

Lemma round53_small (p : Z) : 0 < p <= 2 ^ 53 -> round53 p 1 = p # 1.
Proof.
  intros [Hp Hle].
  assert (H0 : 0 <= Z.log2 p) by apply Z.log2_nonneg.
  assert (H53 : Z.log2 p <= 53).
  { rewrite <- (Z.log2_pow2 53) by lia. apply Z.log2_le_mono. exact Hle. }
  destruct (Z.log2_spec p Hp) as [Hlo Hhi].
  destruct (Z.eq_dec (Z.log2 p) 53) as [E|E].
  - assert (p = 2 ^ 53) by (rewrite E in Hlo; lia). subst p. vm_compute. reflexivity.
  - unfold round53. change (Z.log2 1) with 0. rewrite Z.sub_0_r. cbv zeta.
    replace (0 <=? Z.log2 p)%Z with true by (symmetry; apply Z.leb_le; lia).
    replace (p <? 1 * 2 ^ Z.log2 p)%Z with false by (symmetry; apply Z.ltb_ge; lia).
    replace (0 <=? 52 - Z.log2 p)%Z with true by (symmetry; apply Z.leb_le; lia).
    rewrite Z.div_1_r, Z.mod_1_r. change (2 * 0 <? 1)%Z with true. cbv iota.
    assert (Hs : 0 < 2 ^ (52 - Z.log2 p)) by (apply Z.pow_pos_nonneg; lia).
    rewrite <- (Qred_integer p). apply Qred_complete.
    unfold Qeq. cbn [Qnum Qden]. rewrite Z2Pos.id by exact Hs. lia.
Qed.

Lemma float_small (n : Z) : Z.abs n <= 2 ^ 53 -> float (Integer n) = Ok (Finite (n # 1)).
Proof.
  intros Hn. unfold float, Integer, float_Q. cbn [Qnum Qden]. cbv zeta.
  destruct (Z.eqb_spec n 0) as [->|Hz]; [reflexivity|].
  assert (Hp : 0 < Z.abs n) by lia.
  assert (H1022 : 0 < 2 ^ 1022) by (apply Z.pow_pos_nonneg; lia).
  replace (Z.abs n * 2 ^ 1022 <? 1)%Z with false by (symmetry; apply Z.ltb_ge; nia).
  rewrite (round53_small (Z.abs n)) by lia.
  assert (Hbig : 2 ^ 53 < 2 ^ 1024) by (apply Z.pow_lt_mono_r; lia).
  replace (Qle_bool (2 ^ 1024 # 1) (Z.abs n # 1)) with false
    by (symmetry; unfold Qle_bool; cbn [Qnum Qden]; apply Z.leb_gt; lia).
  destruct (Z.ltb_spec n 0) as [Hneg|Hpos].
  - change (- (Z.abs n # 1))%Q with (- Z.abs n # 1). rewrite Qred_integer.
    replace (- Z.abs n) with n by lia. reflexivity.
  - replace (Z.abs n) with n by lia. reflexivity.
Qed.

(** An integer of magnitude at most [2**53] is printed exactly, by
    the integer branch of the evaluation path. *)
Theorem small_integers_print_exactly (n : Z) :
  Z.abs n <= 2 ^ 53 ->
  format_solutions [Str "EVAL"; Val (Integer n)] = Ok (str_Z n).
Proof.
  intros Hn.
  change (format_solutions [Str "EVAL"; Val (Integer n)]) with (format_eval (Val (Integer n))).
  cbn [format_eval]. unfold try_integer. rewrite (float_small n Hn).
  cbn [int Qnum Qden float_eq_int]. rewrite Z.quot_1_r.
  replace (Qeqb (n # 1) (n # 1)) with true by (symmetry; apply Qeqb_true; reflexivity).
  reflexivity.
Qed.

Lemma small_integers_print_exactly_witness :
  format_solutions [Str "EVAL"; Val (Integer (2 ^ 53))] = Ok "9007199254740992".
Proof.
  apply (small_integers_print_exactly (2 ^ 53)). vm_compute. discriminate.
Defined.

(** ** Evaluation and solving told apart *)


